(** * Lakehouse functions dashboard: catalog formatter and live-feed connection

    A shallow embedding of the two pieces of logic of the front end:

    - the trigger-catalog formatter ([getBadgeClass], [formatCronSchedule]),
    - the [WebSocketService] behind the activity feed ([connect],
      [onMessage], [disconnect] and the four transport callbacks).

    JavaScript strings are modelled as [string], the JavaScript values that
    the formatter manipulates as small inductive types, and the service as a
    record threaded through a step function over an explicit event alphabet. *)

From stdpp Require Import base list strings gmap.
From Stdlib Require Import ZArith Ascii String DecimalString DecimalN.

(** ** The JavaScript built-ins used by the formatter *)

Module JS.

(** *** Strings *)

(** [s.split(sep)] for a one-character separator: a string with [n]
    occurrences of the separator yields [n + 1] fields, empty ones
    included. *)
Fixpoint split (sep : ascii) (s : string) : list string :=
  match s with
  | EmptyString => [EmptyString]
  | String c rest =>
      if Ascii.eqb c sep then EmptyString :: split sep rest
      else match split sep rest with
           | field :: fields => String c field :: fields
           | [] => [String c EmptyString]
           end
  end.

(** [s.startsWith(p)] *)
Fixpoint startsWith (s p : string) {struct p} : bool :=
  match p, s with
  | EmptyString, _ => true
  | String a p', String b s' => Ascii.eqb a b && startsWith s' p'
  | String _ _, EmptyString => false
  end.

(** [s.substring(n)]: the string without its first [n] characters. *)
Fixpoint substring (n : nat) (s : string) : string :=
  match n, s with
  | O, _ => s
  | S n', String _ s' => substring n' s'
  | S _, EmptyString => EmptyString
  end.

Definition is_digit (c : ascii) : bool :=
  (48 <=? N_of_ascii c)%N && (N_of_ascii c <=? 57)%N.

Fixpoint all_digits (s : string) : bool :=
  match s with
  | EmptyString => true
  | String c s' => is_digit c && all_digits s'
  end.

(** [s.match(/^\d+$/)] as a truth value: one or more decimal digits and
    nothing else. *)
Definition match_digits (s : string) : bool :=
  match s with
  | EmptyString => false
  | _ => all_digits s
  end.

Fixpoint repeat_char (n : nat) (c : ascii) : string :=
  match n with
  | O => EmptyString
  | S n' => String c (repeat_char n' c)
  end.

(** [s.padStart(n, c)] for a one-character filler. *)
Definition padStart (n : nat) (c : ascii) (s : string) : string :=
  repeat_char (n - String.length s) c +:+ s.

(** *** Numbers

    The Number values that [formatCronSchedule] can produce: doubles whose
    value is a non-negative integer, positive infinity and NaN. *)
Inductive number : Type :=
| Finite (z : Z)
| Infinity
| NaN.

(** The double nearest to the non-negative integer [z] (ties to even). *)
Definition to_double (z : Z) : number :=
  if (z <? 2 ^ 53)%Z then Finite z
  else
    let e := (Z.log2 z - 52)%Z in
    let q := Z.shiftr z e in
    let r := Z.land z (Z.ones e) in
    let half := (2 ^ (e - 1))%Z in
    let q' := if (half <? r)%Z || ((r =? half)%Z && Z.odd q)
              then (q + 1)%Z else q in
    let v := Z.shiftl q' e in
    if (2 ^ 1024 <=? v)%Z then Infinity else Finite v.

Definition digit_value (c : ascii) : Z := (Z.of_N (N_of_ascii c) - 48)%Z.

(** The mathematical integer denoted by the leading decimal digits of
    [s], read after the accumulator [acc]. *)
Fixpoint decimal_value (acc : Z) (s : string) : Z :=
  match s with
  | String c s' =>
      if is_digit c then decimal_value (10 * acc + digit_value c)%Z s'
      else acc
  | EmptyString => acc
  end.

(** [parseInt(s)] on strings without leading white space, sign or radix
    prefix, which is all the formatter passes (its argument has matched
    [/^\d+$/]): the leading digits are read in base ten and the result is
    the nearest double; no leading digit gives NaN. Past twenty significant
    digits the language lets an engine round slightly differently; the
    doubles that are read back exactly are the same either way. *)
Definition parseInt (s : string) : number :=
  match s with
  | String c _ => if is_digit c then to_double (decimal_value 0 s) else NaN
  | EmptyString => NaN
  end.

(** [x % y] *)
Definition rem (x y : number) : number :=
  match x, y with
  | Finite a, Finite b => if (b =? 0)%Z then NaN else Finite (Z.rem a b)
  | Finite a, Infinity => Finite a
  | _, _ => NaN
  end.

Definition truthy (x : number) : bool :=
  match x with
  | Finite z => negb (z =? 0)%Z
  | Infinity => true
  | NaN => false
  end.

(** [x || y] *)
Definition or_else (x y : number) : number := if truthy x then x else y.

(** [x >= y] *)
Definition geq (x y : number) : bool :=
  match x, y with
  | Finite a, Finite b => (b <=? a)%Z
  | Infinity, Finite _ | Infinity, Infinity => true
  | _, _ => false
  end.

(** Canonical decimal numeral of a natural number. *)
Definition decimal (n : N) : string := NilEmpty.string_of_uint (N.to_uint n).

(** Number-to-string conversion as a template literal performs it, for
    the integers below 10^21, which are printed in plain decimal
    notation; [formatCronSchedule] only converts values from 1 to 12. *)
Definition toString (x : number) : string :=
  match x with
  | Finite z => if (z <? 0)%Z then "-" +:+ decimal (Z.to_N (- z))
                else decimal (Z.to_N z)
  | Infinity => "Infinity"
  | NaN => "NaN"
  end.

(** *** Objects

    A property read [o[k]] looks [k] up among the own properties of [o]
    and then along the prototype chain. The values are the ones that can
    come out of the lookup in [getBadgeClass]. *)
Inductive value : Type :=
| Undefined
| Str (s : string)
| Builtin (name : string).   (* a function or object of the global environment *)

(** The properties every object literal inherits from [Object.prototype]
    in a browser. Each one is a function, except [__proto__], an accessor
    that yields [Object.prototype] itself. *)
Definition Object_prototype : gmap string value :=
  list_to_map
    [ ("constructor", Builtin "Object");
      ("__defineGetter__", Builtin "Object.prototype.__defineGetter__");
      ("__defineSetter__", Builtin "Object.prototype.__defineSetter__");
      ("__lookupGetter__", Builtin "Object.prototype.__lookupGetter__");
      ("__lookupSetter__", Builtin "Object.prototype.__lookupSetter__");
      ("__proto__", Builtin "Object.prototype");
      ("hasOwnProperty", Builtin "Object.prototype.hasOwnProperty");
      ("isPrototypeOf", Builtin "Object.prototype.isPrototypeOf");
      ("propertyIsEnumerable", Builtin "Object.prototype.propertyIsEnumerable");
      ("toLocaleString", Builtin "Object.prototype.toLocaleString");
      ("toString", Builtin "Object.prototype.toString");
      ("valueOf", Builtin "Object.prototype.valueOf") ].

(** [o[k]] for an object literal with own properties [own]. *)
Definition get (own : gmap string value) (k : string) : value :=
  match own !! k with
  | Some v => v
  | None => default Undefined (Object_prototype !! k)
  end.

Definition value_truthy (v : value) : bool :=
  match v with
  | Undefined => false
  | Str s => negb (String.eqb s "")
  | Builtin _ => true
  end.

(** [v || w] *)
Definition value_or (v w : value) : value := if value_truthy v then v else w.

End JS.

(** ** CatalogFormatter (the script of the function list component) *)

Module CatalogFormatter.
Import JS.

Definition getBadgeClass (triggerType : string) : value :=
  let classes : gmap string value :=
    <["timer" := Str "bg-primary"]>
    (<["http" := Str "bg-success"]>
    (<["unity_table" := Str "bg-warning text-dark"]> ∅)) in
  value_or (get classes triggerType) (Str "bg-secondary").

(** The common patterns that [formatCronSchedule] answers first. *)
Definition common_pattern (cronExpression : string) : option string :=
  if String.eqb cronExpression "*/1 * * * *" then Some "Every minute"
  else if String.eqb cronExpression "0/5 * * * *" then Some "Every 5 minutes"
  else if String.eqb cronExpression "0/15 * * * *" then Some "Every 15 minutes"
  else if String.eqb cronExpression "0/30 * * * *" then Some "Every 30 minutes"
  else if String.eqb cronExpression "0 * * * *" then Some "Every hour"
  else if String.eqb cronExpression "0 0 * * *" then Some "Every day at midnight"
  else if String.eqb cronExpression "0 12 * * *" then Some "Every day at noon"
  else None.

Definition formatCronSchedule (cronExpression : string) : string :=
  match common_pattern cronExpression with
  | Some phrase => phrase
  | None =>
      let parts := split " " cronExpression in
      if negb (List.length parts =? 5)%nat then cronExpression
      else
        match parts with
        | [minute; hour; dayOfMonth; month; dayOfWeek] =>
            if startsWith minute "*/" then
              let interval := substring 2 minute in
              "Every " +:+ interval +:+ " minute"
                +:+ (if String.eqb interval "1" then "" else "s")
            else if match_digits minute && match_digits hour then
              let formattedHour := or_else (rem (parseInt hour) (Finite 12)) (Finite 12) in
              let ampm := if geq (parseInt hour) (Finite 12) then "PM" else "AM" in
              let formattedMinute := padStart 2 "0" minute in
              "Every day at " +:+ toString formattedHour +:+ ":" +:+ formattedMinute
                +:+ " " +:+ ampm
            else cronExpression
        | _ => cronExpression
        end
  end.

End CatalogFormatter.

(** ** ConnectionManager (the [WebSocketService] class) *)

Module ConnectionManager.

(** [WebSocket.readyState] *)
Inductive ready_state : Type := CONNECTING | OPEN | CLOSING | CLOSED.

#[global] Instance ready_state_eq_dec : EqDecision ready_state.
Proof. solve_decision. Defined.

(** A transport handle: every [new WebSocket(url)] allocates one, and the
    handles are named by their position in the list of all sockets the
    page has ever created. All four callbacks are installed by [connect]
    right after the allocation and refer to the service, not to the
    socket they are attached to. *)
Record WebSocket : Type := { url : string; readyState : ready_state }.

(** A handler is a function value; [!==] compares function values by
    reference, so a handler is represented by the name of its closure. Of
    what a handler does, the service only sees whether the call returns or
    throws. A call that a handler makes back into the service is a call
    like any other and shows in a run as an event of its own: it cannot
    disturb the dispatch in progress, because [forEach] walks the array it
    started with, up to the length it had then, while [push] adds beyond
    that length and the disposer installs a new array. *)
Definition handler : Type := nat.
Definition payload : Type := string.

(** The fields of [WebSocketService]; [ws] is [None] for [null]. *)
Record WebSocketService : Type := {
  ws : option nat;
  messageHandlers : list handler;
  isConnecting : bool
}.

(** The only function ever given to [setTimeout]: [() => this.connect()]. *)
Inductive callback : Type := Reconnect.

Record timeout : Type := { job : callback; due : N }.

(** The service together with what it acts upon: the sockets, the pending
    timeouts, the clock (in milliseconds) and the console; [deliveries]
    records each invocation of a handler with the payload it was given. *)
Record world : Type := {
  service : WebSocketService;
  sockets : list WebSocket;
  timeouts : list timeout;
  clock : N;
  console : list string;
  deliveries : list (handler * payload)
}.

(** What [connect] reads from the page. *)
Record environment : Type := {
  location_protocol : string;
  location_host : string;
  DEV : bool
}.

Definition with_service (f : WebSocketService → WebSocketService) (w : world) : world :=
  {| service := f (service w); sockets := sockets w; timeouts := timeouts w;
     clock := clock w; console := console w; deliveries := deliveries w |}.

Definition with_sockets (f : list WebSocket → list WebSocket) (w : world) : world :=
  {| service := service w; sockets := f (sockets w); timeouts := timeouts w;
     clock := clock w; console := console w; deliveries := deliveries w |}.

Definition with_timeouts (f : list timeout → list timeout) (w : world) : world :=
  {| service := service w; sockets := sockets w; timeouts := f (timeouts w);
     clock := clock w; console := console w; deliveries := deliveries w |}.

Definition with_deliveries (f : list (handler * payload) → list (handler * payload))
    (w : world) : world :=
  {| service := service w; sockets := sockets w; timeouts := timeouts w;
     clock := clock w; console := console w; deliveries := f (deliveries w) |}.

(** [console.log(line)] and [console.error(line, ...)] *)
Definition log (line : string) (w : world) : world :=
  {| service := service w; sockets := sockets w; timeouts := timeouts w;
     clock := clock w; console := console w ++ [line]; deliveries := deliveries w |}.

Definition advance (ms : N) (w : world) : world :=
  {| service := service w; sockets := sockets w; timeouts := timeouts w;
     clock := (clock w + ms)%N; console := console w; deliveries := deliveries w |}.

Definition set_ws (i : nat) (s : WebSocketService) : WebSocketService :=
  {| ws := Some i; messageHandlers := messageHandlers s; isConnecting := isConnecting s |}.

Definition set_isConnecting (b : bool) (s : WebSocketService) : WebSocketService :=
  {| ws := ws s; messageHandlers := messageHandlers s; isConnecting := b |}.

Definition set_messageHandlers (hs : list handler) (s : WebSocketService) : WebSocketService :=
  {| ws := ws s; messageHandlers := hs; isConnecting := isConnecting s |}.

Definition set_readyState (r : ready_state) (s : WebSocket) : WebSocket :=
  {| url := url s; readyState := r |}.

(** [setTimeout(f, delay)] *)
Definition setTimeout (f : callback) (delay : N) (w : world) : world :=
  with_timeouts (λ ts, ts ++ [{| job := f; due := (clock w + delay)%N |}]) w.

(** [this.ws?.readyState]: [None] when [this.ws] is [null]. *)
Definition ws_readyState (w : world) : option ready_state :=
  match ws (service w) with
  | Some i => readyState <$> sockets w !! i
  | None => None
  end.

(** [socket.close()]: starts the closing handshake of a socket that is
    connecting or open, and does nothing otherwise; the close event comes
    later, from the transport. *)
Definition close (s : WebSocket) : WebSocket :=
  match readyState s with
  | CONNECTING | OPEN => set_readyState CLOSING s
  | CLOSING | CLOSED => s
  end.

Definition new_service : WebSocketService :=
  {| ws := None; messageHandlers := []; isConnecting := false |}.

(** The page right after the module has been loaded. *)
Definition initial : world :=
  {| service := new_service; sockets := []; timeouts := []; clock := 0%N;
     console := []; deliveries := [] |}.

(** How a dispatch ends: the [forEach] returns, or a handler threw. *)
Inductive completion : Type := Normal | Throw.

(** The closure returned by [onMessage(handler)]; it captures [handler]. *)
Inductive disposer : Type := Disposer (handler : handler).

(** What happens to the page: calls made by the presentation layer, events
    of the transport on the socket of the given name, the passing of time
    and the firing of the pending timeout at the given position. *)
Inductive event : Type :=
| Connect
| Disconnect
| OnMessage (h : handler)
| Dispose (d : disposer)
| SockOpen (i : nat)
| SockMessage (i : nat) (data : payload)
| SockError (i : nat)
| SockClose (i : nat)
| Elapse (ms : N)
| Fire (k : nat).

Section Service.

Variable env : environment.

(** Whether the call of the handler on the payload throws. *)
Variable throws : handler → payload → bool.

Definition connect (w : world) : world :=
  if bool_decide (ws_readyState w = Some OPEN)
     || bool_decide (ws_readyState w = Some CONNECTING)
     || isConnecting (service w)
  then log "WebSocket connection already exists or is connecting" w
  else
    let w := with_service (set_isConnecting true) w in
    let protocol :=
      if String.eqb (location_protocol env) "https:" then "wss:" else "ws:" in
    let wsUrl :=
      if DEV env then protocol +:+ "//localhost:8000/api/v1/ws"
      else protocol +:+ "//" +:+ location_host env +:+ "/api/v1/ws" in
    let fresh := List.length (sockets w) in
    let w := with_sockets (λ ss, ss ++ [{| url := wsUrl; readyState := CONNECTING |}]) w in
    with_service (set_ws fresh) w.

(** [this.messageHandlers.forEach(handler => handler(data))]: the
    invocations made, in order, and how the loop ended. *)
Fixpoint forEach (hs : list handler) (data : payload)
    : list (handler * payload) * completion :=
  match hs with
  | [] => ([], Normal)
  | h :: hs' =>
      if throws h data then ([(h, data)], Throw)
      else let '(ds, c) := forEach hs' data in ((h, data) :: ds, c)
  end.

Definition onmessage (data : payload) (w : world) : world * completion :=
  let '(ds, c) := forEach (messageHandlers (service w)) data in
  (with_deliveries (λ old, old ++ ds) w, c).

Definition onopen (w : world) : world :=
  with_service (set_isConnecting false) (log "WebSocket connected" w).

Definition onclose (w : world) : world :=
  let w := log "WebSocket connection closed" w in
  let w := with_service (set_isConnecting false) w in
  setTimeout Reconnect 5000 w.

Definition onerror (w : world) : world :=
  with_service (set_isConnecting false) (log "WebSocket error:" w).

Definition onMessage (handler : handler) (w : world) : world * disposer :=
  (with_service (λ s, set_messageHandlers (messageHandlers s ++ [handler]) s) w,
   Disposer handler).

Definition call_disposer (d : disposer) (w : world) : world :=
  let 'Disposer handler := d in
  with_service
    (λ s, set_messageHandlers (filter (λ h, h ≠ handler) (messageHandlers s)) s) w.

Definition disconnect (w : world) : world :=
  match ws (service w) with
  | Some i => with_sockets (alter close i) w
  | None => w
  end.

Definition run_callback (f : callback) (w : world) : world :=
  match f with
  | Reconnect => connect w
  end.

(** One turn of the event loop. An event that cannot happen in the
    current state (an open event on a socket that is not connecting, a
    message on a socket that is not open, any event on a socket whose
    close event has been delivered, a timeout that is not due) has no
    successor. An exception that escapes [onmessage] is reported by the
    browser and the loop goes on. *)
Definition step (w : world) (e : event) : option world :=
  match e with
  | Connect => Some (connect w)
  | Disconnect => Some (disconnect w)
  | OnMessage h => Some (fst (onMessage h w))
  | Dispose d => Some (call_disposer d w)
  | SockOpen i =>
      match sockets w !! i with
      | Some s =>
          if bool_decide (readyState s = CONNECTING)
          then Some (onopen (with_sockets (alter (set_readyState OPEN) i) w))
          else None
      | None => None
      end
  | SockMessage i data =>
      match sockets w !! i with
      | Some s =>
          if bool_decide (readyState s = OPEN)
          then Some (fst (onmessage data w))
          else None
      | None => None
      end
  | SockError i =>
      match sockets w !! i with
      | Some s =>
          if bool_decide (readyState s = CLOSED) then None
          else Some (onerror w)
      | None => None
      end
  | SockClose i =>
      match sockets w !! i with
      | Some s =>
          if bool_decide (readyState s = CLOSED) then None
          else Some (onclose (with_sockets (alter (set_readyState CLOSED) i) w))
      | None => None
      end
  | Elapse ms => Some (advance ms w)
  | Fire k =>
      match timeouts w !! k with
      | Some t =>
          if (due t <=? clock w)%N
          then Some (run_callback (job t) (with_timeouts (delete k) w))
          else None
      | None => None
      end
  end.

Fixpoint run (w : world) (es : list event) : option world :=
  match es with
  | [] => Some w
  | e :: es' =>
      match step w e with
      | Some w' => run w' es'
      | None => None
      end
  end.

End Service.

(** A socket counts against the single-transport rule while it is
    connecting or open. *)
Definition live (s : WebSocket) : bool :=
  match readyState s with
  | CONNECTING | OPEN => true
  | CLOSING | CLOSED => false
  end.

Definition live_sockets (w : world) : list WebSocket :=
  filter (λ s, live s = true) (sockets w).

(** Every socket that is connecting or open is the one the service holds
    in [ws]. *)
Definition owned (w : world) : Prop :=
  ∀ i s, sockets w !! i = Some s → live s = true → ws (service w) = Some i.

Definition is_close (e : event) : bool :=
  match e with SockClose _ => true | _ => false end.

Definition is_fire (e : event) : bool :=
  match e with Fire _ => true | _ => false end.

(** How many events of the trace satisfy [p]. *)
Definition occurrences (p : event → bool) (es : list event) : nat :=
  List.length (List.filter p es).

(** The timeout that [onclose] schedules at time [now]. *)
Definition reconnect_at (now : N) : timeout :=
  {| job := Reconnect; due := (now + 5000)%N |}.

(** The payloads with which handler [h] was invoked, oldest first. *)
Definition received (h : handler) (ds : list (handler * payload)) : list payload :=
  snd <$> filter (λ d, fst d = h) ds.

(** How many times [h] occurs among the registered handlers. *)
Definition registrations (h : handler) (hs : list handler) : nat :=
  List.length (filter (λ g, g = h) hs).

(** The invocations of a stream of payloads dispatched to the handlers
    [hs], none of which throws. *)
Definition fan_out (hs : list handler) (ms : list payload) : list (handler * payload) :=
  ms ≫= λ m, (λ h, (h, m)) <$> hs.

End ConnectionManager.

(** ** Vocabulary of the statements *)

Module Phrases.
Import JS.

(** The string has no occurrence of the separator. *)
Fixpoint free_of (sep : ascii) (s : string) : bool :=
  match s with
  | EmptyString => true
  | String c s' => negb (Ascii.eqb c sep) && free_of sep s'
  end.

(** Hour of the 12-hour clock: the hour modulo 12, with 0 shown as 12. *)
Definition hour12 (h : Z) : Z := if (h mod 12 =? 0)%Z then 12%Z else (h mod 12)%Z.

Definition period (h : Z) : string := if (h <? 12)%Z then "AM" else "PM".

(** A numeral padded with a zero on the left to two digits. *)
Definition two_digits (minute : string) : string :=
  match minute with
  | EmptyString => "00"
  | String c EmptyString => String "0" minute
  | _ => minute
  end.

(** "Every day at H:MM AM|PM" for numeric hour and minute fields. *)
Definition clock_phrase (hour minute : string) : string :=
  let h := decimal_value 0 hour in
  "Every day at " +:+ decimal (Z.to_N (hour12 h)) +:+ ":" +:+ two_digits minute
    +:+ " " +:+ period h.

(** The integer is a double: reading its numeral with [parseInt] loses
    nothing. Every integer below 2^53 is. *)
Definition representable (z : Z) : Prop := to_double z = Finite z.

(** White space in the sense of the [\s] class, within one-byte
    characters: tab, line feed, vertical tab, form feed, carriage return,
    space and no-break space. *)
Definition is_whitespace (c : ascii) : bool :=
  let n := N_of_ascii c in
  ((9 <=? n)%N && (n <=? 13)%N) || (n =? 32)%N || (n =? 160)%N.

(** Splitting on white space, as the specification words it: a field
    ends at each white-space character. *)
Fixpoint split_whitespace (s : string) : list string :=
  match s with
  | EmptyString => [EmptyString]
  | String c rest =>
      if is_whitespace c then EmptyString :: split_whitespace rest
      else match split_whitespace rest with
           | field :: fields => String c field :: fields
           | [] => [String c EmptyString]
           end
  end.

(** The five fields of a cron expression, joined by single spaces. *)
Definition cron (minute hour dayOfMonth month dayOfWeek : string) : string :=
  minute +:+ " " +:+ hour +:+ " " +:+ dayOfMonth +:+ " " +:+ month +:+ " " +:+ dayOfWeek.

End Phrases.

(** ** Pages used as examples *)

Module Scenario.
Import ConnectionManager.

(** A deployed page served over HTTPS. *)
Definition page : environment :=
  {| location_protocol := "https:"; location_host := "functions.example"; DEV := false |}.

(** No handler ever throws. *)
Definition well_behaved : handler → payload → bool := λ _ _, false.

(** Handler 2 throws on every payload; the others never do. *)
Definition second_throws : handler → payload → bool := λ h _, (h =? 2)%nat.

(** A session that connects twice in a row, loses the connection after a
    disconnect and an early reconnect, and is reconnected by the timer. *)
Definition session : list event :=
  [Connect; Connect; OnMessage 1; SockOpen 0; SockMessage 0 "started";
   Disconnect; Connect; SockClose 0; SockError 1; SockClose 1;
   Elapse 5000; Fire 0; Fire 0; SockOpen 2].

(** A page whose socket 0 is open, with the given registered handlers. *)
Definition connected (hs : list handler) : world :=
  {| service := {| ws := Some 0; messageHandlers := hs; isConnecting := false |};
     sockets := [{| url := "wss://functions.example/api/v1/ws"; readyState := OPEN |}];
     timeouts := []; clock := 0%N; console := ["WebSocket connected"];
     deliveries := [] |}.

End Scenario.

(** ** The function list component (script of the catalog view) *)

Module FunctionList.

(** A function descriptor as the script and the key of its card read it;
    the fields that belong to one kind of trigger only feed the markup. *)
Record trigger_descriptor : Type := { type : string }.

Record func : Type := { name : string; code : string; trigger : trigger_descriptor }.

(** [func.name + func.trigger.type], the key of a card in the [v-for]. *)
Definition card_key (f : func) : string := name f +:+ type (trigger f).

(** The reactive state of the component, with what it has sent to the
    toast widget and to the console. *)
Record component : Type := {
  functions : list func;
  loading : bool;
  showCodeModal : bool;
  selectedFunctionCode : string;
  selectedFunctionName : string;
  toasts : list string;
  console : list string
}.

Definition setup : component :=
  {| functions := []; loading := true; showCodeModal := false;
     selectedFunctionCode := ""; selectedFunctionName := "";
     toasts := []; console := [] |}.

Definition viewCode (f : func) (c : component) : component :=
  {| functions := functions c; loading := loading c; showCodeModal := true;
     selectedFunctionCode := code f; selectedFunctionName := name f;
     toasts := toasts c; console := console c |}.

(** [Object.assign(target, source)] on two arrays: the elements of the
    source overwrite the target index by index, and the target keeps what
    lies beyond the length of the source. *)
Definition Object_assign (target source : list func) : list func :=
  source ++ drop (List.length source) target.

(** What [getFunctions()] settles to: the body of the reply, which is
    [null] or an object whose [functions] is an array or is missing, or a
    rejection. *)
Inductive response : Type :=
| NoBody
| Body (functions : option (list func)).

Inductive settled : Type :=
| Rejected
| Fulfilled (r : response).

Definition set_loading (b : bool) (c : component) : component :=
  {| functions := functions c; loading := b; showCodeModal := showCodeModal c;
     selectedFunctionCode := selectedFunctionCode c;
     selectedFunctionName := selectedFunctionName c;
     toasts := toasts c; console := console c |}.

Definition set_functions (fs : list func) (c : component) : component :=
  {| functions := fs; loading := loading c; showCodeModal := showCodeModal c;
     selectedFunctionCode := selectedFunctionCode c;
     selectedFunctionName := selectedFunctionName c;
     toasts := toasts c; console := console c |}.

(** The [catch] branch of [loadFunctions]. *)
Definition report_failure (c : component) : component :=
  {| functions := functions c; loading := loading c; showCodeModal := showCodeModal c;
     selectedFunctionCode := selectedFunctionCode c;
     selectedFunctionName := selectedFunctionName c;
     toasts := toasts c ++ ["Failed to load functions. Please try again."];
     console := console c ++ ["Error fetching functions:"] |}.

(** [loadFunctions] up to its [await]. *)
Definition loadFunctions_begin (c : component) : component := set_loading true c.

(** [loadFunctions] from the moment the request has settled: reading
    [functions] of a [null] body throws and lands in the [catch] branch like
    a rejection; a missing [functions] is a source that [Object.assign]
    skips. *)
Definition loadFunctions_settle (o : settled) (c : component) : component :=
  let c :=
    match o with
    | Fulfilled (Body (Some fs)) => set_functions (Object_assign (functions c) fs) c
    | Fulfilled (Body None) => c
    | Fulfilled NoBody | Rejected => report_failure c
    end in
  set_loading false c.

Definition loadFunctions (o : settled) (c : component) : component :=
  loadFunctions_settle o (loadFunctions_begin c).

(** The trigger types that the component knows. *)
Definition known_type (t : string) : Prop :=
  t = "timer" ∨ t = "http" ∨ t = "unity_table".

End FunctionList.

(** ** The activity feed component (script of the feed view) *)

Module FunctionFeed.
Import ConnectionManager.

Record message : Type := { id : N; text : payload; timestamp : string }.

Record component : Type := {
  messages : list message;
  loading : bool;
  removeMessageHandler : option disposer
}.

Definition setup : component :=
  {| messages := []; loading := true; removeMessageHandler := None |}.

(** The body of the handler that the component registers: [now] is what
    [Date.now()] returns and [time] what [toLocaleTimeString()] returns at
    the moment of the call. *)
Definition receive (now : N) (time : string) (m : payload) (c : component) : component :=
  {| messages := messages c ++ [{| id := now; text := m; timestamp := time |}];
     loading := loading c; removeMessageHandler := removeMessageHandler c |}.

(** The handler called once for each arrival, oldest first; an arrival is
    the clock reading, the local time and the payload of one call. *)
Definition receive_all (arrivals : list (N * string * payload)) (c : component)
    : component :=
  foldl (λ c a, receive a.1.1 a.1.2 a.2 c) c arrivals.

(** The list as the template shows it: [[...messages].reverse()]. *)
Definition displayed (c : component) : list message := reverse (messages c).




End FunctionFeed.

(** ** Vocabulary of the further statements about the formatter *)

Module Inherited.

(** The names that every object literal answers to besides its own keys. *)
Definition inherited_names : list string :=
  [ "constructor"; "__defineGetter__"; "__defineSetter__"; "__lookupGetter__";
    "__lookupSetter__"; "__proto__"; "hasOwnProperty"; "isPrototypeOf";
    "propertyIsEnumerable"; "toLocaleString"; "toString"; "valueOf" ].

Definition badge_classes : list JS.value :=
  [ JS.Str "bg-primary"; JS.Str "bg-success"; JS.Str "bg-warning text-dark";
    JS.Str "bg-secondary" ].

End Inherited.

(** ** Vocabulary of the statements about runs *)

Module Traces.
Import ConnectionManager.

(** The URL that [connect] computes from the page. *)
Definition ws_url (env : environment) : string :=
  let protocol := if String.eqb (location_protocol env) "https:" then "wss:" else "ws:" in
  if DEV env then protocol +:+ "//localhost:8000/api/v1/ws"
  else protocol +:+ "//" +:+ location_host env +:+ "/api/v1/ws".

(** The page after a call of [connect] that got past the guard. *)
Definition opened (env : environment) (w : world) : world :=
  {| service := {| ws := Some (List.length (sockets w));
                   messageHandlers := messageHandlers (service w);
                   isConnecting := true |};
     sockets := sockets w ++ [{| url := ws_url env; readyState := CONNECTING |}];
     timeouts := timeouts w; clock := clock w; console := console w;
     deliveries := deliveries w |}.

(** Every socket is opened at the URL of the page. *)
Definition urls_from_page (env : environment) (w : world) : Prop :=
  ∀ i s, sockets w !! i = Some s → url s = ws_url env.

(** The service holds the socket created last, if any was created. *)
Definition newest (w : world) : Prop :=
  match ws (service w) with
  | Some i => S i = List.length (sockets w)
  | None => sockets w = []
  end.

(** While the connecting flag is up, the socket of the service is
    connecting, or closing after a [disconnect]. *)
Definition flag_sound (w : world) : Prop :=
  isConnecting (service w) = true →
  ws_readyState w = Some CONNECTING ∨ ws_readyState w = Some CLOSING.

(** A call of [onMessage] or of a disposer. *)
Definition registry_event (e : event) : bool :=
  match e with
  | OnMessage _ | Dispose _ => true
  | _ => false
  end.

(** How far a socket is on its way from connecting to closed. *)
Definition rank (r : ready_state) : nat :=
  match r with
  | CONNECTING => 0
  | OPEN => 1
  | CLOSING => 2
  | CLOSED => 3
  end.

(** [n] connection losses in a row, each answered by the timeout it
    scheduled: socket [i] closes, 5 s pass and the timeout at position [k]
    fires, which creates socket [next]; then that one closes, and so on. *)
Fixpoint retries (i next k n : nat) : list event :=
  match n with
  | O => []
  | S n' => [SockClose i; Elapse 5000; Fire k] ++ retries next (S next) k n'
  end.

End Traces.

Import JS CatalogFormatter ConnectionManager Phrases Scenario.
Import Traces Inherited.

(** * Properties of the catalog formatter *)

#[local] Arguments String.append !_ _ / : simpl nomatch.

Section StringFacts.

Lemma split_free sep f : free_of sep f = true → split sep f = [f].
Proof.
  induction f as [|c f IH]; cbn [split free_of]; [done|].
  destruct (Ascii.eqb c sep); cbn [negb andb]; [done|].
  intros H. by rewrite IH.
Qed.

Lemma split_field sep f rest :
  free_of sep f = true → split sep (f +:+ String sep rest) = f :: split sep rest.
Proof.
  induction f as [|c f IH]; cbn [split free_of String.append].
  - intros _. by rewrite Ascii.eqb_refl.
  - destruct (Ascii.eqb c sep); cbn [negb andb]; [done|].
    intros H. by rewrite IH.
Qed.

(** Five space-free fields joined by spaces are split back into
    themselves. *)
Lemma split_cron minute hour dayOfMonth month dayOfWeek :
  free_of " " minute = true → free_of " " hour = true →
  free_of " " dayOfMonth = true → free_of " " month = true →
  free_of " " dayOfWeek = true →
  split " " (cron minute hour dayOfMonth month dayOfWeek)
  = [minute; hour; dayOfMonth; month; dayOfWeek].
Proof.
  intros H1 H2 H3 H4 H5. unfold cron.
  cbn [String.append].
  rewrite !split_field by done. by rewrite split_free.
Qed.

Lemma startsWith_app p s : startsWith (p +:+ s) p = true.
Proof.
  induction p as [|c p IH]; cbn [startsWith String.append]; [done|].
  by rewrite Ascii.eqb_refl.
Qed.

Lemma substring_app p s : substring (String.length p) (p +:+ s) = s.
Proof. induction p as [|c p IH]; cbn [substring String.length String.append]; done. Qed.

Lemma decimal_inj n m : decimal n = decimal m → n = m.
Proof.
  unfold decimal. intros H. apply DecimalN.Unsigned.to_uint_inj.
  assert (Some (N.to_uint n) = Some (N.to_uint m)) as [= ->]; [|done].
  by rewrite <- !NilEmpty.usu, H.
Qed.

Lemma decimal_eqb_1 n : String.eqb (decimal n) "1" = (n =? 1)%N.
Proof.
  destruct (N.eqb_spec n 1) as [->|Hne]; [done|].
  apply String.eqb_neq. intros H. apply Hne. by apply decimal_inj.
Qed.

End StringFacts.

Section NumberFacts.

(** Every integer below 2^53 is a double. *)
Lemma small_integers_representable z : (z < 2 ^ 53)%Z → representable z.
Proof.
  intros H. unfold representable, to_double. by rewrite (proj2 (Z.ltb_lt _ _) H).
Qed.

Lemma digit_value_nonneg c : is_digit c = true → (0 ≤ digit_value c)%Z.
Proof.
  unfold is_digit, digit_value. intros [H _]%andb_prop.
  apply N.leb_le in H. lia.
Qed.

Lemma decimal_value_nonneg s : ∀ acc, (0 ≤ acc)%Z → (0 ≤ decimal_value acc s)%Z.
Proof.
  induction s as [|c s IH]; intros acc Hacc; cbn [decimal_value]; [done|].
  destruct (is_digit c) eqn:Hc; [|done].
  apply IH. pose proof (digit_value_nonneg c Hc). lia.
Qed.

Lemma parseInt_digits s :
  match_digits s = true → parseInt s = to_double (decimal_value 0 s).
Proof.
  destruct s as [|c s]; [done|]. unfold match_digits, parseInt.
  cbn [all_digits]. by intros [-> _]%andb_prop.
Qed.

Lemma digits_not_interval minute :
  match_digits minute = true → startsWith minute "*/" = false.
Proof.
  destruct minute as [|c s]; [done|]. unfold match_digits.
  cbn [all_digits startsWith]. intros [Hc _]%andb_prop.
  destruct (Ascii.eqb_spec "*" c) as [<-|_]; [done|done].
Qed.

Lemma padStart_two_digits minute : padStart 2 "0" minute = two_digits minute.
Proof. by destruct minute as [|c [|c' s]]. Qed.

Lemma hour_rendering v :
  (0 ≤ v)%Z →
  toString (or_else (rem (Finite v) (Finite 12)) (Finite 12))
  = decimal (Z.to_N (hour12 v)).
Proof.
  intros Hv. unfold rem, or_else, truthy, hour12, toString. cbn [Z.eqb].
  rewrite Z.rem_mod_nonneg by lia.
  pose proof (Z.mod_pos_bound v 12 ltac:(lia)).
  destruct (Z.eqb_spec (v mod 12) 0); cbn [negb]; [done|].
  by rewrite (proj2 (Z.ltb_ge _ _)) by lia.
Qed.

Lemma period_rendering v :
  (if geq (Finite v) (Finite 12) then "PM" else "AM") = period v.
Proof.
  unfold geq, period.
  destruct (Z.leb_spec 12 v), (Z.ltb_spec v 12); done || lia.
Qed.

End NumberFacts.

Section FormatCronSchedule.

(** Past the table of common patterns and with five fields, the answer is
    decided by the minute and hour fields alone. *)
Lemma format_five_fields expr minute hour dayOfMonth month dayOfWeek :
  common_pattern expr = None →
  split " " expr = [minute; hour; dayOfMonth; month; dayOfWeek] →
  formatCronSchedule expr =
    if startsWith minute "*/" then
      "Every " +:+ substring 2 minute +:+ " minute"
        +:+ (if String.eqb (substring 2 minute) "1" then "" else "s")
    else if match_digits minute && match_digits hour then
      "Every day at "
        +:+ toString (or_else (rem (parseInt hour) (Finite 12)) (Finite 12))
        +:+ ":" +:+ padStart 2 "0" minute +:+ " "
        +:+ (if geq (parseInt hour) (Finite 12) then "PM" else "AM")
    else expr.
Proof. intros Hc Hs. unfold formatCronSchedule. by rewrite Hc, Hs. Qed.

Lemma interval_rule expr suffix hour dayOfMonth month dayOfWeek :
  common_pattern expr = None →
  split " " expr = ["*/" +:+ suffix; hour; dayOfMonth; month; dayOfWeek] →
  formatCronSchedule expr =
    "Every " +:+ suffix +:+ " minute" +:+ (if String.eqb suffix "1" then "" else "s").
Proof.
  intros Hc Hs. rewrite (format_five_fields _ _ _ _ _ _ Hc Hs).
  by rewrite startsWith_app, (substring_app "*/").
Qed.

(** The same on an expression given by its fields. *)
Lemma interval_rule_cron suffix hour dayOfMonth month dayOfWeek :
  let expr := cron ("*/" +:+ suffix) hour dayOfMonth month dayOfWeek in
  free_of " " suffix = true → free_of " " hour = true →
  free_of " " dayOfMonth = true → free_of " " month = true →
  free_of " " dayOfWeek = true →
  common_pattern expr = None →
  formatCronSchedule expr =
    "Every " +:+ suffix +:+ " minute" +:+ (if String.eqb suffix "1" then "" else "s").
Proof.
  intros expr H1 H2 H3 H4 H5 Hc.
  apply (interval_rule expr suffix hour dayOfMonth month dayOfWeek Hc).
  by apply split_cron.
Qed.

(** C6, as amended. Outside the table of common patterns, a five-field
    expression whose minute field is "*/N", N a natural number written as
    its decimal numeral without leading zeros, is rendered "Every N minute"
    when N is 1 and "Every N minutes" otherwise. A numeral written in any
    other way is put into the phrase as it is written, and gets the
    singular only when it is written "1". "*/7 * * * *" gives
    "Every 7 minutes". *)
Theorem interval_phrase :
  (∀ expr (N : N) hour dayOfMonth month dayOfWeek,
     common_pattern expr = None →
     split " " expr = ["*/" +:+ decimal N; hour; dayOfMonth; month; dayOfWeek] →
     formatCronSchedule expr =
       "Every " +:+ decimal N +:+ " minute" +:+ (if (N =? 1)%N then "" else "s"))
  ∧ (∀ expr numeral hour dayOfMonth month dayOfWeek,
       common_pattern expr = None →
       split " " expr = ["*/" +:+ numeral; hour; dayOfMonth; month; dayOfWeek] →
       match_digits numeral = true →
       formatCronSchedule expr =
         "Every " +:+ numeral +:+ " minute"
           +:+ (if String.eqb numeral "1" then "" else "s"))
  ∧ formatCronSchedule "*/7 * * * *" = "Every 7 minutes".
Proof.
  split_and!; [| |done].
  - intros expr N hour dayOfMonth month dayOfWeek Hc Hs.
    rewrite (interval_rule _ _ _ _ _ _ Hc Hs). by rewrite decimal_eqb_1.
  - intros expr numeral hour dayOfMonth month dayOfWeek Hc Hs _.
    apply (interval_rule _ _ _ _ _ _ Hc Hs).
Qed.

Lemma interval_phrase_witness :
  formatCronSchedule "*/45 3 * * 1" = "Every 45 minutes"
  ∧ formatCronSchedule "*/1 3 * * *" = "Every 1 minute"
  ∧ formatCronSchedule "*/007 * * * *" = "Every 007 minutes".
Proof.
  split_and!.
  - exact (proj1 interval_phrase "*/45 3 * * 1" 45%N "3" "*" "*" "1"
             eq_refl eq_refl).
  - exact (proj1 interval_phrase "*/1 3 * * *" 1%N "3" "*" "*" "*"
             eq_refl eq_refl).
  - exact (proj1 (proj2 interval_phrase) "*/007 * * * *" "007" "*" "*" "*" "*"
             eq_refl eq_refl eq_refl).
Defined.

(** C6, as stated, fails: the singular is chosen by comparing the text
    after "*/" with the string "1", not by the number it denotes. In
    "*/01 3 * * *" the minute field is "*/N" with N equal to 1, and the
    result is "Every 01 minutes": the plural, whether N is shown as it is
    written or as the numeral of its value. *)
Lemma interval_phrase_leading_zero :
  ¬ (∀ expr numeral hour dayOfMonth month dayOfWeek,
       common_pattern expr = None →
       split " " expr = ["*/" +:+ numeral; hour; dayOfMonth; month; dayOfWeek] →
       match_digits numeral = true →
       let N := decimal_value 0 numeral in
       formatCronSchedule expr
         = "Every " +:+ numeral +:+ " minute" +:+ (if (N =? 1)%Z then "" else "s")
       ∨ formatCronSchedule expr
         = "Every " +:+ decimal (Z.to_N N) +:+ " minute"
             +:+ (if (N =? 1)%Z then "" else "s")).
Proof.
  intros H.
  specialize (H "*/01 3 * * *" "01" "3" "*" "*" "*" eq_refl eq_refl eq_refl).
  vm_compute in H. destruct H as [H|H]; discriminate H.
Qed.

(** C10. The text after "*/" is not validated: outside the table of
    common patterns, a five-field expression whose minute field starts
    with "*/" is rendered with the rest of that field verbatim, and the
    singular is chosen when that rest is the string "1"; so
    "*/x * * * *" gives "Every x minutes" and "*/01 * * * *" gives
    "Every 01 minutes". *)
Theorem interval_suffix_verbatim :
  (∀ expr suffix hour dayOfMonth month dayOfWeek,
     common_pattern expr = None →
     split " " expr = ["*/" +:+ suffix; hour; dayOfMonth; month; dayOfWeek] →
     formatCronSchedule expr =
       "Every " +:+ suffix +:+ " minute"
         +:+ (if String.eqb suffix "1" then "" else "s"))
  ∧ formatCronSchedule "*/x * * * *" = "Every x minutes"
  ∧ formatCronSchedule "*/01 * * * *" = "Every 01 minutes".
Proof. split; [apply interval_rule|done]. Qed.

Lemma interval_suffix_verbatim_witness :
  formatCronSchedule "*/1,5 * * * *" = "Every 1,5 minutes".
Proof.
  exact (proj1 interval_suffix_verbatim "*/1,5 * * * *" "1,5" "*" "*" "*" "*"
           eq_refl eq_refl).
Defined.

(** C7, as amended. Outside the table of common patterns, a five-field
    expression whose minute and hour fields are both purely numeric, the
    hour being a number that a double represents exactly, is rendered
    "Every day at H:MM AM|PM": H is the hour modulo 12 with 0 shown as 12,
    the period is AM below 12 and PM from 12 on, and the minute is padded
    with a zero to two digits; "30 14 * * *" gives "Every day at 2:30 PM". *)
Theorem daily_time_phrase :
  (∀ expr minute hour dayOfMonth month dayOfWeek,
     common_pattern expr = None →
     split " " expr = [minute; hour; dayOfMonth; month; dayOfWeek] →
     match_digits minute = true →
     match_digits hour = true →
     representable (decimal_value 0 hour) →
     formatCronSchedule expr = clock_phrase hour minute)
  ∧ formatCronSchedule "30 14 * * *" = "Every day at 2:30 PM".
Proof.
  split; [|done].
  intros expr minute hour dayOfMonth month dayOfWeek Hc Hs Hm Hh Hr.
  rewrite (format_five_fields _ _ _ _ _ _ Hc Hs).
  rewrite (digits_not_interval _ Hm), Hm, Hh. cbn [andb].
  rewrite (parseInt_digits _ Hh), Hr.
  rewrite hour_rendering by (by apply decimal_value_nonneg).
  by rewrite padStart_two_digits, period_rendering.
Qed.

Lemma daily_time_phrase_witness :
  formatCronSchedule "5 23 * * 0" = clock_phrase "23" "5".
Proof.
  exact (proj1 daily_time_phrase "5 23 * * 0" "5" "23" "*" "*" "0"
           eq_refl eq_refl eq_refl eq_refl eq_refl).
Defined.

(** C7, as stated, fails: [parseInt] yields a double, and the hour
    9007199254740993 (2^53 + 1) is read as 9007199254740992, whose
    remainder modulo 12 is 8, not 9. *)
Lemma daily_time_phrase_large_hour :
  ¬ (∀ expr minute hour dayOfMonth month dayOfWeek,
       common_pattern expr = None →
       split " " expr = [minute; hour; dayOfMonth; month; dayOfWeek] →
       startsWith minute "*/" = false →
       match_digits minute = true →
       match_digits hour = true →
       formatCronSchedule expr = clock_phrase hour minute).
Proof.
  intros H.
  specialize (H "0 9007199254740993 * * *" "0" "9007199254740993" "*" "*" "*"
                eq_refl eq_refl eq_refl eq_refl eq_refl).
  vm_compute in H. discriminate H.
Qed.

(** C8, as amended. With no match in the table of common patterns, the
    expression is returned unchanged when splitting it at each space
    character does not give exactly five fields, and also when the five
    fields trigger neither the interval rule (minute starting with "*/")
    nor the rule for numeric minute and hour. *)
Theorem passthrough :
  (∀ expr,
     common_pattern expr = None →
     List.length (split " " expr) ≠ 5 →
     formatCronSchedule expr = expr)
  ∧ (∀ expr minute hour dayOfMonth month dayOfWeek,
       common_pattern expr = None →
       split " " expr = [minute; hour; dayOfMonth; month; dayOfWeek] →
       startsWith minute "*/" = false →
       match_digits minute && match_digits hour = false →
       formatCronSchedule expr = expr).
Proof.
  split.
  - intros expr Hc Hn. unfold formatCronSchedule. rewrite Hc.
    by destruct (Nat.eqb_spec (List.length (split " " expr)) 5).
  - intros expr minute hour dayOfMonth month dayOfWeek Hc Hs Hi Hd.
    by rewrite (format_five_fields _ _ _ _ _ _ Hc Hs), Hi, Hd.
Qed.

Lemma passthrough_witness :
  formatCronSchedule "not a cron" = "not a cron"
  ∧ formatCronSchedule "15 */2 * * *" = "15 */2 * * *".
Proof.
  split.
  - refine (proj1 passthrough "not a cron" eq_refl _). vm_compute. discriminate.
  - exact (proj2 passthrough "15 */2 * * *" "15" "*/2" "*" "*" "*"
             eq_refl eq_refl eq_refl eq_refl).
Defined.

(** C8, as stated, fails: the code splits at the space character only. A
    tab after the fifth field makes six fields on white space, yet five
    on spaces, and the interval rule rewrites the expression. *)
Lemma passthrough_whitespace_fields :
  ¬ (∀ expr,
       common_pattern expr = None →
       List.length (split_whitespace expr) ≠ 5 →
       formatCronSchedule expr = expr).
Proof.
  intros H.
  specialize (H ("*/5 * * * *" +:+ String "009" "x") eq_refl).
  vm_compute in H. discriminate H. discriminate.
Qed.

End FormatCronSchedule.

Section GetBadgeClass.

Lemma badge_class_timer : getBadgeClass "timer" = Str "bg-primary".
Proof. reflexivity. Qed.

Lemma badge_class_http : getBadgeClass "http" = Str "bg-success".
Proof. reflexivity. Qed.

Lemma badge_class_unity_table :
  getBadgeClass "unity_table" = Str "bg-warning text-dark".
Proof. reflexivity. Qed.

(** A tag that is neither one of the three keys nor the name of an
    inherited property gets the default class. *)
Lemma badge_class_default triggerType :
  triggerType ≠ "timer" → triggerType ≠ "http" → triggerType ≠ "unity_table" →
  Object_prototype !! triggerType = None →
  getBadgeClass triggerType = Str "bg-secondary".
Proof.
  intros H1 H2 H3 Hp. unfold getBadgeClass, get.
  rewrite !lookup_insert_ne by done. by rewrite lookup_empty, Hp.
Qed.

(** C9 fails on the code. The three known tags have their own classes,
    but an unrecognized tag that names a property inherited from
    [Object.prototype] is answered with that property instead of the
    default class: for "constructor" the result is the [Object] function. *)
Theorem badge_class_inherited_property :
  getBadgeClass "timer" = Str "bg-primary"
  ∧ getBadgeClass "http" = Str "bg-success"
  ∧ getBadgeClass "unity_table" = Str "bg-warning text-dark"
  ∧ getBadgeClass "constructor" = Builtin "Object"
  ∧ getBadgeClass "constructor" ≠ Str "bg-secondary".
Proof. repeat split; reflexivity || discriminate. Qed.

End GetBadgeClass.

(** * Properties of the connection manager *)

Section Registry.

Lemma registrations_other (g h : handler) hs :
  h ≠ g → registrations h (filter (λ k, k ≠ g) hs) = registrations h hs.
Proof.
  intros Hne. unfold registrations. f_equal.
  induction hs as [|k hs IH]; [done|].
  rewrite !filter_cons.
  destruct (decide (k ≠ g)) as [Hk|Hk].
  - rewrite filter_cons. destruct (decide (k = h)); by rewrite IH.
  - destruct (decide (k = h)) as [->|]; [by destruct Hk|done].
Qed.

(** C5. The disposer returned by [onMessage(handler)] removes that
    handler and nothing else: afterwards the handler is not registered,
    the other handlers are registered as before, in the same order, and
    the rest of the page is untouched. Calling it again, or when the
    handler is not registered, changes nothing; registering a fresh
    handler and disposing of it restores the page. *)
Theorem disposer_removes_handler (handler : handler) (w0 w : world) :
  let d := snd (onMessage handler w0) in
  let hs := messageHandlers (service w) in
  let hs' := messageHandlers (service (call_disposer d w)) in
  (handler ∉ hs')
  ∧ (∀ g, g ≠ handler → registrations g hs' = registrations g hs)
  ∧ filter (λ g, g ≠ handler) hs' = filter (λ g, g ≠ handler) hs
  ∧ hs' = filter (λ g, g ≠ handler) hs
  ∧ call_disposer d w = with_service (set_messageHandlers hs') w
  ∧ call_disposer d (call_disposer d w) = call_disposer d w
  ∧ (handler ∉ hs → call_disposer d w = w)
  ∧ (handler ∉ hs → call_disposer d (fst (onMessage handler w)) = w).
Proof.
  cbn zeta. cbn [onMessage snd call_disposer with_service service
                 set_messageHandlers messageHandlers].
  assert (∀ l : list ConnectionManager.handler,
            handler ∉ l → filter (λ h, h ≠ handler) l = l) as Hid.
  { intros l Hl. induction l as [|k l IH]; [done|].
    apply not_elem_of_cons in Hl as [Hk Hl].
    rewrite filter_cons_True by done. by rewrite IH. }
  assert (∀ l : list ConnectionManager.handler,
            handler ∉ filter (λ h, h ≠ handler) l) as Hnot.
  { intros l [Hne _]%list_elem_of_filter. by apply Hne. }
  split_and!.
  - apply Hnot.
  - intros g Hg. by apply registrations_other.
  - by rewrite Hid.
  - done.
  - done.
  - unfold with_service.
    cbn [service set_messageHandlers messageHandlers]. by rewrite Hid.
  - intros Hh. destruct w as [[] ?]. unfold with_service.
    cbn [service set_messageHandlers messageHandlers] in *. by rewrite Hid.
  - intros Hh. destruct w as [[] ?]. unfold with_service.
    cbn [service set_messageHandlers messageHandlers fst onMessage with_service] in *.
    rewrite filter_app, Hid by done.
    rewrite filter_cons_False by (intros Hne; by apply Hne).
    by rewrite filter_nil, app_nil_r.
Qed.

Lemma disposer_removes_handler_witness :
  call_disposer (Disposer 9) (connected [3; 7]) = connected [3; 7]
  ∧ call_disposer (Disposer 9) (fst (onMessage 9 (connected [3; 7]))) = connected [3; 7].
Proof.
  destruct (disposer_removes_handler 9 initial (connected [3; 7]))
    as (_ & _ & _ & _ & _ & _ & H1 & H2).
  assert (9 ∉ messageHandlers (service (connected [3; 7]))) as Hfresh.
  { cbn. rewrite !not_elem_of_cons. split_and!; [discriminate..|apply not_elem_of_nil]. }
  split; [exact (H1 Hfresh)|exact (H2 Hfresh)].
Defined.

End Registry.

Section Dispatch.

Variable env : environment.
Variable throws : handler → payload → bool.

#[local] Abbreviation step := (step env throws).
#[local] Abbreviation run := (run env throws).
#[local] Abbreviation forEach := (forEach throws).
#[local] Abbreviation onmessage := (onmessage throws).

Lemma forEach_returns hs data :
  (∀ h, h ∈ hs → throws h data = false) →
  forEach hs data = ((λ h, (h, data)) <$> hs, Normal).
Proof.
  induction hs as [|h hs IH]; intros Hq; [done|].
  cbn [ConnectionManager.forEach].
  rewrite Hq by apply list_elem_of_here.
  rewrite IH; [done|]. intros g Hg. apply Hq. by apply list_elem_of_further.
Qed.

Lemma forEach_throws pre h post data :
  (∀ g, g ∈ pre → throws g data = false) →
  throws h data = true →
  forEach (pre ++ h :: post) data = (((λ g, (g, data)) <$> pre) ++ [(h, data)], Throw).
Proof.
  intros Hpre Hh. induction pre as [|g pre IH]; cbn [ConnectionManager.forEach app].
  - by rewrite Hh.
  - rewrite Hpre by apply list_elem_of_here.
    rewrite IH; [done|]. intros k Hk. apply Hpre. by apply list_elem_of_further.
Qed.

Lemma step_message w i s data :
  sockets w !! i = Some s → readyState s = OPEN →
  step w (SockMessage i data) = Some (fst (onmessage data w)).
Proof.
  intros Hi Hs. cbn [ConnectionManager.step]. rewrite Hi.
  by rewrite bool_decide_eq_true_2.
Qed.

Lemma received_app h ds1 ds2 :
  received h (ds1 ++ ds2) = received h ds1 ++ received h ds2.
Proof. unfold received. by rewrite filter_app, fmap_app. Qed.

(** Of one payload fanned out to [hs], handler [h] gets one copy for each
    of its registrations. *)
Lemma received_one_payload h hs (m : payload) :
  received h ((λ g, (g, m)) <$> hs) = replicate (registrations h hs) m.
Proof.
  unfold received, registrations.
  induction hs as [|g hs IH]; [done|].
  rewrite fmap_cons, !filter_cons. cbn [fst].
  destruct (decide (g = h)); cbn [fmap list_fmap List.length replicate snd];
    by rewrite <- IH.
Qed.

Lemma received_fan_out h hs ms :
  received h (fan_out hs ms) = ms ≫= λ m, replicate (registrations h hs) m.
Proof.
  unfold fan_out. induction ms as [|m ms IH]; [done|].
  by rewrite !bind_cons, received_app, received_one_payload, IH.
Qed.

Lemma bind_replicate_one (ms : list payload) : (ms ≫= λ m, replicate 1 m) = ms.
Proof. induction ms as [|m ms IH]; [done|]. by rewrite bind_cons, IH. Qed.

(** A stream of messages on an open socket, none of which makes a handler
    throw, appends its fan-out to the record and changes nothing else. *)
Lemma run_messages ms : ∀ w i s,
  sockets w !! i = Some s → readyState s = OPEN →
  (∀ h m, h ∈ messageHandlers (service w) → m ∈ ms → throws h m = false) →
  run w (SockMessage i <$> ms)
  = Some (with_deliveries (λ old, old ++ fan_out (messageHandlers (service w)) ms) w).
Proof.
  induction ms as [|m ms IH]; intros w i s Hi Hs Hq.
  - cbn. f_equal. destruct w. unfold with_deliveries, fan_out. cbn.
    by rewrite app_nil_r.
  - rewrite fmap_cons. cbn [ConnectionManager.run].
    rewrite (step_message _ _ _ _ Hi Hs). unfold ConnectionManager.onmessage.
    rewrite forEach_returns
      by (intros h Hh; apply Hq; [done|apply list_elem_of_here]).
    cbn [fst]. rewrite (IH _ i s); [| done | done |].
    + f_equal. unfold with_deliveries, fan_out.
      cbn [service sockets timeouts clock console deliveries].
      by rewrite bind_cons, app_assoc.
    + intros h m' Hh Hm. apply Hq; [done|]. by apply list_elem_of_further.
Qed.

Lemma registrations_absent (h : handler) hs : h ∉ hs → registrations h hs = 0.
Proof.
  intros Hh. unfold registrations.
  induction hs as [|g hs IH]; [done|].
  apply not_elem_of_cons in Hh as [Hne Hh].
  rewrite filter_cons_False by (intros ->; by apply Hne). by apply IH.
Qed.

Lemma bind_replicate_zero (ms : list payload) : (ms ≫= λ m, replicate 0 m) = [].
Proof. induction ms as [|m ms IH]; [done|]. by rewrite bind_cons, IH. Qed.

(** C1, as amended. When a handler throws during the dispatch of a message,
    the dispatch ends there: the consumers before it in dispatch order and
    the thrower itself have been invoked with the message, and a consumer
    that only comes after the thrower does not receive that message. The
    service itself is left as it was. *)
Theorem throwing_handler_stops_dispatch w i s data pre h post :
  sockets w !! i = Some s → readyState s = OPEN →
  messageHandlers (service w) = pre ++ h :: post →
  (∀ g, g ∈ pre → throws g data = false) →
  throws h data = true →
  ∃ w', step w (SockMessage i data) = Some w'
    ∧ snd (onmessage data w) = Throw
    ∧ deliveries w' = deliveries w ++ ((λ g, (g, data)) <$> pre ++ [h])
    ∧ (∀ g, g ∈ post → g ∉ pre → g ≠ h →
         received g (deliveries w') = received g (deliveries w))
    ∧ service w' = service w ∧ sockets w' = sockets w ∧ timeouts w' = timeouts w.
Proof.
  intros Hi Hs Hhs Hpre Hh.
  rewrite (step_message _ _ _ _ Hi Hs). unfold ConnectionManager.onmessage.
  rewrite Hhs, (forEach_throws _ _ _ _ Hpre Hh).
  eexists. split; [done|]. cbn [fst snd with_deliveries deliveries].
  rewrite fmap_app. split_and!; try done.
  intros g Hpost Hg Hne. rewrite received_app.
  change [(h, data)] with ((λ g, (g, data)) <$> [h]).
  rewrite <- fmap_app, received_one_payload, registrations_absent.
  - by rewrite app_nil_r.
  - rewrite elem_of_app, elem_of_cons, elem_of_nil. by intros [?|[?|[]]].
Qed.

(** C4, as amended. On an open socket, and provided no registered handler
    throws on them, the payloads of a stream are delivered within the turn
    of their message event to the registered consumers in registration
    order, once for each registration of a consumer, hence exactly once to
    a consumer registered once, and every consumer gets them in the order
    of the stream. Disposing of consumer [g] in the middle of the stream
    ends the deliveries to [g] and does not affect the others. *)
Theorem ordered_fan_out w i s g ms1 ms2 :
  let hs := messageHandlers (service w) in
  sockets w !! i = Some s → readyState s = OPEN →
  (∀ h m, h ∈ hs → m ∈ ms1 ++ ms2 → throws h m = false) →
  ∃ w1 w2,
    run w (SockMessage i <$> ms1) = Some w1
    ∧ run w1 (Dispose (Disposer g) :: (SockMessage i <$> ms2)) = Some w2
    ∧ deliveries w1 = deliveries w ++ fan_out hs ms1
    ∧ deliveries w2 = deliveries w1 ++ fan_out (filter (λ h, h ≠ g) hs) ms2
    ∧ (∀ h, received h (deliveries w1)
            = received h (deliveries w) ++ (ms1 ≫= λ m, replicate (registrations h hs) m))
    ∧ (∀ h, registrations h hs = 1 →
            received h (deliveries w1) = received h (deliveries w) ++ ms1)
    ∧ (∀ h, h ≠ g →
            received h (deliveries w2)
            = received h (deliveries w)
                ++ ((ms1 ++ ms2) ≫= λ m, replicate (registrations h hs) m))
    ∧ (∀ h, h ≠ g → registrations h hs = 1 →
            received h (deliveries w2) = received h (deliveries w) ++ ms1 ++ ms2)
    ∧ received g (deliveries w2) = received g (deliveries w1).
Proof.
  intros hs Hi Hs Hq.
  pose proof (run_messages ms1 w i s Hi Hs) as H1.
  rewrite H1
    by (intros h m Hh Hm; apply Hq; [done|apply elem_of_app; by left]).
  set (w1 := with_deliveries _ w).
  pose proof (run_messages ms2 (call_disposer (Disposer g) w1) i s Hi Hs) as H2.
  exists w1, (with_deliveries
                (λ old, old ++ fan_out (filter (λ h, h ≠ g) hs) ms2)
                (call_disposer (Disposer g) w1)).
  assert (∀ h, received h (deliveries w1)
               = received h (deliveries w)
                   ++ (ms1 ≫= λ m, replicate (registrations h hs) m)) as Hw1.
  { intros h. subst w1. cbn [with_deliveries deliveries].
    by rewrite received_app, received_fan_out. }
  assert (∀ h, h ≠ g →
            received h (deliveries w1 ++ fan_out (filter (λ h, h ≠ g) hs) ms2)
            = received h (deliveries w)
                ++ ((ms1 ++ ms2) ≫= λ m, replicate (registrations h hs) m)) as Hw2.
  { intros h Hne. rewrite received_app, Hw1, received_fan_out.
    by rewrite registrations_other, bind_app, app_assoc. }
  split_and!.
  - done.
  - cbn [ConnectionManager.run ConnectionManager.step]. rewrite H2; [done|].
    intros h m [_ Hh]%list_elem_of_filter Hm.
    apply Hq; [done|apply elem_of_app; by right].
  - done.
  - done.
  - exact Hw1.
  - intros h Hone. by rewrite Hw1, Hone, bind_replicate_one.
  - exact Hw2.
  - intros h Hne Hone. cbn [with_deliveries deliveries call_disposer with_service].
    by rewrite Hw2, Hone, bind_replicate_one.
  - cbn [with_deliveries deliveries call_disposer with_service].
    rewrite received_app, received_fan_out, registrations_absent.
    + by rewrite bind_replicate_zero, app_nil_r.
    + intros [Hne _]%list_elem_of_filter. by apply Hne.
Qed.

End Dispatch.

Lemma throwing_handler_stops_dispatch_witness :
  ∃ w', step page second_throws (connected [1; 2; 3]) (SockMessage 0 "run ok") = Some w'
    ∧ deliveries w' = [(1, "run ok"); (2, "run ok")]
    ∧ received 3 (deliveries w') = [].
Proof.
  destruct (throwing_handler_stops_dispatch page second_throws
              (connected [1; 2; 3]) 0 _ "run ok" [1] 2 [3] eq_refl eq_refl eq_refl)
    as (w' & Hstep & _ & Hd & Hr & _).
  - intros g ->%list_elem_of_singleton. reflexivity.
  - reflexivity.
  - exists w'. split_and!; [exact Hstep|exact Hd|].
    apply (Hr 3).
    + apply list_elem_of_here.
    + intros [=]%list_elem_of_singleton.
    + discriminate.
Defined.

(** C1, as stated, fails: with consumers 1, 2 and 3 registered in this
    order and the handler of 2 throwing, consumer 3 is not given the
    message. *)
Lemma failure_not_isolated :
  ¬ (∀ env throws w i s data pre h post w',
       sockets w !! i = Some s → readyState s = OPEN →
       messageHandlers (service w) = pre ++ h :: post →
       throws h data = true →
       step env throws w (SockMessage i data) = Some w' →
       ∀ g, g ∈ post → ∃ ds, deliveries w' = deliveries w ++ ds ∧ (g, data) ∈ ds).
Proof.
  intros H.
  destruct (H page second_throws (connected [1; 2; 3]) 0 _ "run ok" [1] 2 [3] _
              eq_refl eq_refl eq_refl eq_refl eq_refl 3)
    as (ds & Hds & Hin).
  - apply list_elem_of_here.
  - cbn in Hds. subst ds.
    repeat (apply elem_of_cons in Hin as [[=]|Hin]).
    by apply elem_of_nil in Hin.
Qed.

Lemma ordered_fan_out_witness :
  ∃ w1 w2,
    run page well_behaved (connected [1; 2; 3]) (SockMessage 0 <$> ["a"; "b"]) = Some w1
    ∧ run page well_behaved w1 (Dispose (Disposer 2) :: (SockMessage 0 <$> ["c"])) = Some w2
    ∧ received 1 (deliveries w2) = ["a"; "b"; "c"]
    ∧ received 2 (deliveries w2) = ["a"; "b"]
    ∧ received 3 (deliveries w2) = ["a"; "b"; "c"].
Proof.
  destruct (ordered_fan_out page well_behaved (connected [1; 2; 3]) 0 _ 2
              ["a"; "b"] ["c"] eq_refl eq_refl (λ _ _ _ _, eq_refl))
    as (w1 & w2 & H1 & H2 & _ & _ & _ & Hone & _ & Hothers & Hg).
  exists w1, w2. split_and!; [exact H1|exact H2|..].
  - apply (Hothers 1); [discriminate|reflexivity].
  - rewrite Hg. apply (Hone 2). reflexivity.
  - apply (Hothers 3); [discriminate|reflexivity].
Defined.

(** C4, as stated, fails in two ways. A consumer that comes after a
    throwing handler is not given the payload; and a handler that has been
    registered twice is given every payload twice, even when no handler
    throws. *)
Lemma not_every_consumer_exactly_once :
  ¬ (∀ env throws w i s data w',
       sockets w !! i = Some s → readyState s = OPEN →
       step env throws w (SockMessage i data) = Some w' →
       ∀ h, h ∈ messageHandlers (service w) →
         ∃ ds, deliveries w' = deliveries w ++ ds ∧ received h ds = [data])
  ∧ ¬ (∀ env w i s data w',
         sockets w !! i = Some s → readyState s = OPEN →
         step env well_behaved w (SockMessage i data) = Some w' →
         ∀ h, h ∈ messageHandlers (service w) →
           ∃ ds, deliveries w' = deliveries w ++ ds ∧ received h ds = [data]).
Proof.
  split; intros H.
  - destruct (H page second_throws (connected [1; 2; 3]) 0 _ "run ok" _
                eq_refl eq_refl eq_refl 3) as (ds & Hds & Hr).
    + apply list_elem_of_further, list_elem_of_further, list_elem_of_here.
    + cbn in Hds. subst ds. discriminate Hr.
  - destruct (H page (connected [5; 5]) 0 _ "run ok" _
                eq_refl eq_refl eq_refl 5) as (ds & Hds & Hr).
    + apply list_elem_of_here.
    + cbn in Hds. subst ds. discriminate Hr.
Qed.

Section Lifecycle.

Variable env : environment.
Variable throws : handler → payload → bool.

#[local] Abbreviation connect := (connect env).
#[local] Abbreviation step := (step env throws).
#[local] Abbreviation run := (run env throws).

Lemma lookup_alter_inv (f : WebSocket → WebSocket) (l : list WebSocket) (j i : nat) s :
  alter f j l !! i = Some s →
  ∃ s0, l !! i = Some s0 ∧ (s = s0 ∨ (i = j ∧ s = f s0)).
Proof.
  destruct (decide (j = i)) as [->|Hne].
  - rewrite list_lookup_alter_eq. destruct (l !! i) as [s0|]; [|done].
    intros [= <-]. exists s0. auto.
  - rewrite list_lookup_alter_ne by done. intros H. exists s. auto.
Qed.

Lemma live_close s : live (close s) = false.
Proof. by destruct s as [u []]. Qed.

(** What the guard of [connect] lets through. *)
Lemma connect_guarded w :
  ws_readyState w = Some CONNECTING ∨ ws_readyState w = Some OPEN
    ∨ isConnecting (service w) = true →
  connect w = log "WebSocket connection already exists or is connecting" w.
Proof.
  intros H. unfold ConnectionManager.connect.
  destruct H as [H|[H|H]]; rewrite H; [done|done|].
  by rewrite orb_true_r.
Qed.

Lemma connect_cases w :
  connect w = log "WebSocket connection already exists or is connecting" w
  ∨ (ws_readyState w ≠ Some OPEN ∧ ws_readyState w ≠ Some CONNECTING
     ∧ ∃ u, sockets (connect w) = sockets w ++ [{| url := u; readyState := CONNECTING |}]
          ∧ ws (service (connect w)) = Some (List.length (sockets w))
          ∧ timeouts (connect w) = timeouts w).
Proof.
  unfold ConnectionManager.connect.
  destruct (decide (ws_readyState w = Some OPEN)) as [Ho|Ho].
  { left. by rewrite bool_decide_eq_true_2. }
  destruct (decide (ws_readyState w = Some CONNECTING)) as [Hc|Hc].
  { left. by rewrite (bool_decide_eq_true_2 _ Hc), orb_true_r. }
  rewrite !bool_decide_eq_false_2 by done. cbn [orb].
  destruct (isConnecting (service w)); [by left|]. right.
  split; [done|]. split; [done|]. eexists. by cbn.
Qed.

Lemma owned_connect w : owned w → owned (connect w).
Proof.
  intros Hw. destruct (connect_cases w) as [->|(Ho & Hc & u & Hsock & Hws & _)];
    [exact Hw|].
  intros i s. rewrite Hsock, Hws.
  intros [Hi|[Hle Hi]]%lookup_app_Some Hlive.
  - exfalso. pose proof (Hw i s Hi Hlive) as Hown.
    unfold ws_readyState in Ho, Hc. rewrite Hown, Hi in Ho, Hc. cbn in Ho, Hc.
    unfold live in Hlive. destruct (readyState s); done.
  - apply lookup_lt_Some in Hi. cbn in Hi. f_equal. lia.
Qed.

Lemma owned_step w e w' : owned w → step w e = Some w' → owned w'.
Proof.
  intros Hw. destruct e as [| |h|[g]|i|i data|i|i|ms|k]; cbn [ConnectionManager.step].
  - intros [= <-]. by apply owned_connect.
  - intros [= <-]. unfold disconnect.
    destruct (ws (service w)) as [j|] eqn:Hj; [|exact Hw].
    intros i s (s0 & Hi & [->|[-> ->]])%lookup_alter_inv Hlive.
    + by apply (Hw i s0).
    + by rewrite live_close in Hlive.
  - intros [= <-]. exact Hw.
  - intros [= <-]. exact Hw.
  - destruct (sockets w !! i) as [s0|] eqn:Hi; [|done].
    case_bool_decide as Hc; [|done]. intros [= <-].
    intros j s (s1 & Hj & [->|[-> ->]])%lookup_alter_inv Hlive; cbn.
    + by apply (Hw j s1).
    + apply (Hw i s0 Hi). unfold live. by rewrite Hc.
  - destruct (sockets w !! i) as [s0|]; [|done].
    case_bool_decide; [|done]. intros [= <-].
    unfold onmessage. destruct (forEach _ _ _). exact Hw.
  - destruct (sockets w !! i) as [s0|]; [|done].
    case_bool_decide; [done|]. intros [= <-]. exact Hw.
  - destruct (sockets w !! i) as [s0|] eqn:Hi; [|done].
    case_bool_decide; [done|]. intros [= <-].
    intros j s (s1 & Hj & [->|[-> ->]])%lookup_alter_inv Hlive; cbn.
    + by apply (Hw j s1).
    + done.
  - intros [= <-]. exact Hw.
  - destruct (timeouts w !! k) as [[[] d]|]; [|done]. cbn [due job run_callback].
    destruct (d <=? clock w)%N; [|done]. intros [= <-].
    by apply owned_connect.
Qed.

Lemma owned_run es : ∀ w w', owned w → run w es = Some w' → owned w'.
Proof.
  induction es as [|e es IH]; intros w w' Hw; cbn [ConnectionManager.run].
  - by intros [= <-].
  - destruct (step w e) as [w1|] eqn:He; [|done].
    apply IH. by apply (owned_step w e).
Qed.

Lemma owned_initial : owned initial.
Proof. intros i s Hi. by destruct i. Qed.

(** Sockets that are all the same one are at most one. *)
Lemma live_unique (l : list WebSocket) :
  (∀ i j x y, l !! i = Some x → l !! j = Some y →
     live x = true → live y = true → i = j) →
  List.length (filter (λ s, live s = true) l) ≤ 1.
Proof.
  induction l as [|a l IH]; intros Hu; [cbn; lia|].
  rewrite filter_cons. destruct (decide (live a = true)) as [Ha|Ha].
  - assert (filter (λ s, live s = true) l = []) as ->; [|cbn; lia].
    destruct (filter _ l) as [|b bs] eqn:Hf; [done|]. exfalso.
    assert (b ∈ filter (λ s, live s = true) l) as [Hb Hin]%list_elem_of_filter
      by (rewrite Hf; apply list_elem_of_here).
    apply list_elem_of_lookup_1 in Hin as [j Hj].
    by specialize (Hu 0 (S j) a b eq_refl Hj Ha Hb).
  - apply IH. intros i j x y Hi Hj Hx Hy.
    by specialize (Hu (S i) (S j) x y Hi Hj Hx Hy) as [= ->].
Qed.

Lemma owned_single w : owned w → List.length (live_sockets w) ≤ 1.
Proof.
  intros Hw. apply live_unique. intros i j x y Hi Hj Hx Hy.
  pose proof (Hw i x Hi Hx) as H1. pose proof (Hw j y Hj Hy) as H2. congruence.
Qed.

Lemma run_take es : ∀ w w' n,
  run w es = Some w' → ∃ wn, run w (take n es) = Some wn ∧ run wn (drop n es) = Some w'.
Proof.
  induction es as [|e es IH]; intros w w' n H.
  - rewrite take_nil, drop_nil. by exists w.
  - destruct n as [|n]; [by exists w|].
    cbn [ConnectionManager.run take drop] in *.
    destruct (step w e) as [w1|]; [|done]. by apply IH.
Qed.

(** C2. Along every run of the page from its initial state, whatever the
    calls and events, at most one socket is connecting or open at any
    point. A call of [connect] while the socket of the service is
    connecting or open (or while the connecting flag is up) creates no
    socket and changes neither the service nor the timeouts: all it leaves
    is its line on the console. *)
Theorem single_live_transport :
  (∀ es w, run initial es = Some w →
     ∀ n, ∃ wn, run initial (take n es) = Some wn
                ∧ List.length (live_sockets wn) ≤ 1)
  ∧ (∀ w,
       ws_readyState w = Some CONNECTING ∨ ws_readyState w = Some OPEN
         ∨ isConnecting (service w) = true →
       connect w = log "WebSocket connection already exists or is connecting" w
       ∧ sockets (connect w) = sockets w
       ∧ service (connect w) = service w
       ∧ timeouts (connect w) = timeouts w
       ∧ deliveries (connect w) = deliveries w).
Proof.
  split.
  - intros es w Hrun n.
    destruct (run_take es initial w n Hrun) as (wn & Hn & _).
    exists wn. split; [done|].
    apply owned_single.
    apply (owned_run (take n es) initial wn); [apply owned_initial|exact Hn].
  - intros w Hg. by rewrite (connect_guarded w Hg).
Qed.

End Lifecycle.

Lemma single_live_transport_witness :
  (∃ wn, run page well_behaved initial (take 7 session) = Some wn
         ∧ List.length (live_sockets wn) ≤ 1)
  ∧ sockets (connect page (connected [1])) = sockets (connected [1]).
Proof.
  split.
  - refine (proj1 (single_live_transport page well_behaved) session _ _ 7).
    vm_compute. reflexivity.
  - refine (proj1 (proj2 (proj2 (single_live_transport page well_behaved) (connected [1]) _))).
    right. left. reflexivity.
Defined.

Section Reconnection.

Variable env : environment.
Variable throws : handler → payload → bool.

#[local] Abbreviation connect := (connect env).
#[local] Abbreviation step := (step env throws).
#[local] Abbreviation run := (run env throws).

Lemma connect_timeouts w : timeouts (connect w) = timeouts w.
Proof. by destruct (connect_cases env w) as [->|(_ & _ & _ & _ & _ & ->)]. Qed.

Lemma step_close w i s :
  sockets w !! i = Some s → readyState s ≠ CLOSED →
  step w (SockClose i)
  = Some (onclose (with_sockets (alter (set_readyState CLOSED) i) w)).
Proof.
  intros Hi Hs. cbn [ConnectionManager.step]. rewrite Hi.
  by rewrite bool_decide_eq_false_2.
Qed.

(** Each step changes the number of pending timeouts by what the event
    says: a close event adds one, a firing takes one away. *)
Lemma step_timeouts w e w' :
  step w e = Some w' →
  List.length (timeouts w') + occurrences is_fire [e]
  = List.length (timeouts w) + occurrences is_close [e].
Proof.
  destruct e as [| |h|[g]|i|i data|i|i|ms|k];
    cbn [ConnectionManager.step occurrences List.filter is_fire is_close List.length].
  - intros [= <-]. by rewrite connect_timeouts.
  - intros [= <-]. unfold disconnect. by destruct (ws (service w)).
  - by intros [= <-].
  - by intros [= <-].
  - destruct (sockets w !! i); [|done]. case_bool_decide; [|done]. by intros [= <-].
  - destruct (sockets w !! i); [|done]. case_bool_decide; [|done]. intros [= <-].
    unfold onmessage. by destruct (forEach _ _ _).
  - destruct (sockets w !! i); [|done]. case_bool_decide; [done|]. by intros [= <-].
  - destruct (sockets w !! i); [|done]. case_bool_decide; [done|]. intros [= <-].
    cbn. rewrite length_app. cbn. lia.
  - by intros [= <-].
  - destruct (timeouts w !! k) as [[[] d]|] eqn:Hk; [|done]. cbn [due job run_callback].
    destruct (d <=? clock w)%N; [|done]. intros [= <-].
    rewrite connect_timeouts. cbn [with_timeouts timeouts].
    rewrite length_delete by done. apply lookup_lt_Some in Hk. lia.
Qed.

Lemma occurrences_cons p e es :
  occurrences p (e :: es) = occurrences p [e] + occurrences p es.
Proof. unfold occurrences. cbn. by destruct (p e). Qed.

Lemma run_timeouts es : ∀ w w',
  run w es = Some w' →
  List.length (timeouts w') + occurrences is_fire es
  = List.length (timeouts w) + occurrences is_close es.
Proof.
  induction es as [|e es IH]; intros w w'; cbn [ConnectionManager.run].
  - intros [= <-]. done.
  - destruct (step w e) as [w1|] eqn:He; [|done]. intros Hrun.
    rewrite (occurrences_cons is_fire), (occurrences_cons is_close).
    pose proof (step_timeouts w e w1 He). pose proof (IH w1 w' Hrun). lia.
Qed.

(** C3. Every close event of the transport, in whatever state the socket
    was (open, connecting, or closing after [disconnect]) and whether or
    not an error event came first, schedules exactly one timeout, due 5000
    ms later, whose callback is a call of [connect]; the error event
    itself schedules nothing. [disconnect] puts the socket of the service
    in the closing state and touches no timeout, and the close event that
    follows schedules the reconnection all the same. A timeout fires only
    when it is due. Along a run from the initial page, the timeouts
    scheduled are as many as the close events. *)
Theorem close_schedules_one_reconnect :
  (∀ w i s, sockets w !! i = Some s → readyState s ≠ CLOSED →
     ∃ w', step w (SockClose i) = Some w'
           ∧ timeouts w' = timeouts w ++ [reconnect_at (clock w)]
           ∧ clock w' = clock w
           ∧ sockets w' !! i = Some (set_readyState CLOSED s))
  ∧ (∀ w i w', step w (SockError i) = Some w' →
       timeouts w' = timeouts w ∧ sockets w' = sockets w)
  ∧ (∀ w i s, ws (service w) = Some i → sockets w !! i = Some s → live s = true →
       sockets (disconnect w) !! i = Some (set_readyState CLOSING s)
       ∧ timeouts (disconnect w) = timeouts w
       ∧ ∃ w', run w [Disconnect; SockClose i] = Some w'
               ∧ timeouts w' = timeouts w ++ [reconnect_at (clock w)])
  ∧ (∀ w k now, timeouts w !! k = Some (reconnect_at now) →
       step w (Fire k)
       = if (now + 5000 <=? clock w)%N
         then Some (connect (with_timeouts (delete k) w)) else None)
  ∧ (∀ es w, run initial es = Some w →
       List.length (timeouts w) + occurrences is_fire es = occurrences is_close es).
Proof.
  split_and!.
  - intros w i s Hi Hs. rewrite (step_close w i s Hi Hs).
    eexists. split; [done|]. split_and!; [done|done|].
    cbn. by rewrite list_lookup_alter_eq, Hi.
  - intros w i w'. cbn [ConnectionManager.step].
    destruct (sockets w !! i); [|done]. case_bool_decide; [done|]. by intros [= <-].
  - intros w i s Hws Hi Hlive.
    cbn [ConnectionManager.run]. change (step w Disconnect) with (Some (disconnect w)).
    unfold disconnect. rewrite Hws.
    assert (alter close i (sockets w) !! i = Some (set_readyState CLOSING s)) as Hc.
    { rewrite list_lookup_alter_eq, Hi. by destruct s as [u []]. }
    split_and!; [done|done|].
    rewrite (step_close _ i (set_readyState CLOSING s)) by done.
    by eexists.
  - intros w k now Hk. cbn [ConnectionManager.step]. by rewrite Hk.
  - intros es w Hrun. apply (run_timeouts es initial w Hrun).
Qed.

End Reconnection.

Lemma close_schedules_one_reconnect_witness :
  (∃ w', step page well_behaved (connected [1]) (SockClose 0) = Some w'
         ∧ timeouts w' = [reconnect_at 0])
  ∧ (∃ w', run page well_behaved (connected [1]) [Disconnect; SockClose 0] = Some w'
           ∧ timeouts w' = [reconnect_at 0])
  ∧ step page well_behaved
      (with_timeouts (λ _, [reconnect_at 0]) (advance 4999 (connected [1]))) (Fire 0)
    = None
  ∧ (∃ w, run page well_behaved initial session = Some w
          ∧ List.length (timeouts w) + 2 = 2).
Proof.
  pose proof (close_schedules_one_reconnect page well_behaved)
    as (Hclose & _ & Hdisc & Hfire & Hcount).
  split_and!.
  - destruct (Hclose (connected [1]) 0 _ eq_refl) as (w' & Hs & Ht & _);
      [discriminate|].
    exists w'. by split.
  - destruct (Hdisc (connected [1]) 0 _ eq_refl eq_refl eq_refl)
      as (_ & _ & w' & Hr & Ht).
    exists w'. by split.
  - exact (Hfire (with_timeouts (λ _, [reconnect_at 0]) (advance 4999 (connected [1])))
             0 0%N eq_refl).
  - eexists. split; [vm_compute; reflexivity|].
    refine (Hcount session _ _). vm_compute. reflexivity.
Defined.

(** * Further properties of the connection manager *)

(** One case for each kind of event, with the successor of the step in
    place of [w']. *)
Ltac step_cases e w :=
  destruct e as [| |?h|[?g]|?i|?i ?data|?i|?i|?ms|?k]; cbn [step];
  [ intros [= <-]
  | intros [= <-]
  | intros [= <-]
  | intros [= <-]
  | destruct (sockets w !! _) as [?s|] eqn:?Hi; [|done];
    case_bool_decide; [|done]; intros [= <-]
  | destruct (sockets w !! _) as [?s|] eqn:?Hi; [|done];
    case_bool_decide; [|done]; intros [= <-]
  | destruct (sockets w !! _) as [?s|] eqn:?Hi; [|done];
    case_bool_decide; [done|]; intros [= <-]
  | destruct (sockets w !! _) as [?s|] eqn:?Hi; [|done];
    case_bool_decide; [done|]; intros [= <-]
  | intros [= <-]
  | destruct (timeouts w !! _) as [[[] ?d]|] eqn:?Hk; [|done];
    cbn [due job run_callback];
    destruct (_ <=? _)%N eqn:?Hdue; [|done]; intros [= <-] ].

Section Runs.

Variable env : environment.
Variable throws : handler → payload → bool.

#[local] Abbreviation connect := (connect env).
#[local] Abbreviation step := (step env throws).
#[local] Abbreviation run := (run env throws).

Lemma run_app es1 es2 w :
  run w (es1 ++ es2) = match run w es1 with Some w1 => run w1 es2 | None => None end.
Proof.
  revert w. induction es1 as [|e es1 IH]; intros w; [done|].
  cbn [ConnectionManager.run app]. destruct (step w e); [apply IH|done].
Qed.

(** A property kept by every step is kept by every run. *)
Lemma run_invariant (P : world → Prop) :
  (∀ w e w', P w → step w e = Some w' → P w') →
  ∀ es w w', P w → run w es = Some w' → P w'.
Proof.
  intros Hstep. induction es as [|e es IH]; intros w w' Hw; cbn [ConnectionManager.run].
  - by intros [= <-].
  - destruct (step w e) as [w1|] eqn:He; [|done]. apply IH. by apply (Hstep w e).
Qed.

Lemma connect_dichotomy w :
  connect w = log "WebSocket connection already exists or is connecting" w
  ∨ (ws_readyState w ≠ Some OPEN ∧ ws_readyState w ≠ Some CONNECTING
     ∧ isConnecting (service w) = false ∧ connect w = opened env w).
Proof.
  unfold ConnectionManager.connect.
  destruct (decide (ws_readyState w = Some OPEN)) as [Ho|Ho].
  { left. by rewrite bool_decide_eq_true_2. }
  destruct (decide (ws_readyState w = Some CONNECTING)) as [Hc|Hc].
  { left. by rewrite (bool_decide_eq_true_2 _ Hc), orb_true_r. }
  rewrite !bool_decide_eq_false_2 by done. cbn [orb].
  destruct (isConnecting (service w)); [by left|]. right. by split_and!.
Qed.

Lemma connect_unguarded w :
  ws_readyState w ≠ Some OPEN → ws_readyState w ≠ Some CONNECTING →
  isConnecting (service w) = false → connect w = opened env w.
Proof.
  intros Ho Hc Hf. destruct (connect_dichotomy w) as [Hg|(_ & _ & _ & ->)]; [|done].
  exfalso. unfold ConnectionManager.connect in Hg.
  rewrite !bool_decide_eq_false_2, Hf in Hg by done. cbn [orb] in Hg.
  apply (f_equal (λ w, List.length (sockets w))) in Hg. cbn in Hg.
  rewrite length_app in Hg. cbn in Hg. lia.
Qed.

(** ** The sockets of a run *)

#[local] Abbreviation urls_from_page := (urls_from_page env).

Lemma urls_connect w : urls_from_page w → urls_from_page (connect w).
Proof.
  intros Hw. destruct (connect_dichotomy w) as [->|(_ & _ & _ & ->)]; [exact Hw|].
  intros i s [Hi|[_ Hi]]%lookup_app_Some.
  - by apply (Hw i).
  - destruct (i - List.length (sockets w)); [by injection Hi as <-|done].
Qed.

Lemma urls_step w e w' : urls_from_page w → step w e = Some w' → urls_from_page w'.
Proof.
  intros Hw. step_cases e w; try exact Hw.
  - by apply urls_connect.
  - unfold disconnect. destruct (ws (service w)) as [j|]; [|exact Hw].
    intros i s' (s0 & Hs0 & [->|[_ ->]])%lookup_alter_inv.
    + by apply (Hw i).
    + rewrite <- (Hw i s0 Hs0). by destruct s0 as [u []].
  - intros j s' (s0 & Hs0 & [->|[_ ->]])%lookup_alter_inv; by apply (Hw j s0).
  - unfold onmessage. destruct (forEach _ _ _). exact Hw.
  - intros j s' (s0 & Hs0 & [->|[_ ->]])%lookup_alter_inv; by apply (Hw j s0).
  - by apply urls_connect.
Qed.

Lemma wss_iff_https :
  JS.startsWith (ws_url env) "wss:" = String.eqb (location_protocol env) "https:".
Proof.
  unfold ws_url.
  by destruct (String.eqb (location_protocol env) "https:"), (DEV env).
Qed.

(** X1. Every socket that the service creates along a run is opened at the
    one URL computed from the page: its scheme is "wss:" exactly when the
    page is served over "https:", in a development build it points at
    localhost:8000 whatever the host of the page, and otherwise at the host
    of the page; the path is always /api/v1/ws. *)
Theorem sockets_share_the_page_url es w :
  run initial es = Some w →
  ∀ i s, sockets w !! i = Some s →
    url s = ws_url env
    ∧ JS.startsWith (url s) "wss:" = String.eqb (location_protocol env) "https:"
    ∧ (DEV env = true →
         url s = "wss://localhost:8000/api/v1/ws" ∨ url s = "ws://localhost:8000/api/v1/ws")
    ∧ (DEV env = false →
         url s = "wss://" +:+ location_host env +:+ "/api/v1/ws"
         ∨ url s = "ws://" +:+ location_host env +:+ "/api/v1/ws").
Proof.
  intros Hrun i s Hi.
  assert (url s = ws_url env) as ->.
  { apply (run_invariant urls_from_page urls_step es initial w) in Hrun.
    - by apply (Hrun i).
    - intros j s' Hj. by destruct j. }
  split_and!; [done|apply wss_iff_https|..]; intros Hdev; unfold ws_url; rewrite Hdev;
    destruct (String.eqb (location_protocol env) "https:"); auto.
Qed.

Lemma newest_connect w : newest w → newest (connect w).
Proof.
  intros Hw. destruct (connect_dichotomy w) as [->|(_ & _ & _ & ->)]; [exact Hw|].
  unfold newest. cbn. rewrite length_app. cbn. lia.
Qed.

Lemma newest_alter f i w : newest w → newest (with_sockets (alter f i) w).
Proof.
  unfold newest. cbn. rewrite length_alter.
  destruct (ws (service w)); [done|]. by intros ->.
Qed.

Lemma newest_step w e w' : newest w → step w e = Some w' → newest w'.
Proof.
  intros Hw. step_cases e w; try exact Hw.
  - by apply newest_connect.
  - unfold disconnect. destruct (ws (service w)) eqn:Hws; [|exact Hw].
    by apply newest_alter.
  - by apply (newest_alter _ _ w).
  - unfold onmessage. destruct (forEach _ _ _). exact Hw.
  - by apply (newest_alter _ _ w).
  - by apply newest_connect.
Qed.

(** X2. Along a run the service always holds the socket created last: [ws]
    is [null] only as long as no socket has been created, it is never reset,
    and an older socket is never taken up again. So [disconnect] always
    closes the newest socket. *)
Theorem service_holds_newest_socket es w :
  run initial es = Some w →
  (ws (service w) = None ↔ sockets w = [])
  ∧ (∀ i, ws (service w) = Some i → S i = List.length (sockets w))
  ∧ (sockets w ≠ [] → ws (service w) = Some (List.length (sockets w) - 1)).
Proof.
  intros Hrun.
  apply (run_invariant newest newest_step es initial w) in Hrun; [|done].
  unfold newest in Hrun. destruct (ws (service w)) as [j|] eqn:Hws.
  - split_and!.
    + split; [done|]. intros Hnil. rewrite Hnil in Hrun. done.
    + by intros i [= <-].
    + intros _. f_equal. lia.
  - by split_and!.
Qed.

(** ** The connecting flag *)

Lemma ws_readyState_opened w : ws_readyState (opened env w) = Some CONNECTING.
Proof.
  unfold ws_readyState, opened. cbn [ws service sockets].
  by rewrite list_lookup_middle.
Qed.

Lemma ws_readyState_disconnect w :
  ws_readyState (disconnect w) = readyState ∘ close <$>
    match ws (service w) with Some i => sockets w !! i | None => None end.
Proof.
  unfold ws_readyState, disconnect. destruct (ws (service w)) as [i|] eqn:Hws; cbn.
  - rewrite Hws, list_lookup_alter_eq. by destruct (sockets w !! i).
  - by rewrite Hws.
Qed.

Lemma flag_sound_connect w : flag_sound w → flag_sound (connect w).
Proof.
  intros Hw. destruct (connect_dichotomy w) as [->|(_ & _ & _ & ->)]; [exact Hw|].
  intros _. left. apply ws_readyState_opened.
Qed.

Lemma flag_sound_step w e w' : flag_sound w → step w e = Some w' → flag_sound w'.
Proof.
  intros Hw. step_cases e w; try exact Hw; try (by intros [=]).
  - by apply flag_sound_connect.
  - intros Hf. right. rewrite ws_readyState_disconnect.
    assert (isConnecting (service w) = true) as Hfw.
    { unfold disconnect in Hf. by destruct (ws (service w)). }
    specialize (Hw Hfw). unfold ws_readyState in Hw.
    destruct (ws (service w)) as [j|]; [|by destruct Hw].
    destruct (sockets w !! j) as [[u r]|]; [|by destruct Hw].
    cbn in *. by destruct Hw as [[= ->]|[= ->]].
  - unfold onmessage. destruct (forEach _ _ _). exact Hw.
  - by apply flag_sound_connect.
Qed.

Lemma flag_sound_reachable es w :
  run initial es = Some w →
  isConnecting (service w) = true →
  ∃ i s, ws (service w) = Some i ∧ sockets w !! i = Some s
         ∧ (readyState s = CONNECTING ∨ readyState s = CLOSING).
Proof.
  intros Hrun Hf.
  apply (run_invariant flag_sound flag_sound_step es initial w) in Hrun;
    [|by intros [=]].
  specialize (Hrun Hf). unfold ws_readyState in Hrun.
  destruct (ws (service w)) as [i|]; [|by destruct Hrun].
  destruct (sockets w !! i) as [s|] eqn:Hi; [|by destruct Hrun].
  exists i, s. split_and!; [done|done|]. cbn in Hrun.
  destruct Hrun as [[= ->]|[= ->]]; auto.
Qed.

(** X3. Along a run the connecting flag is up only while the socket that
    the service holds is connecting, or closing because [disconnect] was
    called before it had opened: the flag is never up without a socket, nor
    with an open or a closed one. *)
Theorem connecting_flag_sound es w :
  run initial es = Some w →
  isConnecting (service w) = true →
  ∃ i s, ws (service w) = Some i ∧ sockets w !! i = Some s
         ∧ (readyState s = CONNECTING ∨ readyState s = CLOSING).
Proof. apply flag_sound_reachable. Qed.

(** X4. Calling [connect] right after [disconnect] depends on how far the
    socket had come. While the connecting flag is up the call is refused,
    since [disconnect] leaves the flag alone: no socket is created until a
    transport event lowers the flag. With an open socket on a page reached
    by a run the call goes through at once: a new socket is connecting
    while the old one is still closing. *)
Theorem connect_after_disconnect :
  (∀ w, isConnecting (service w) = true →
     connect (disconnect w)
     = log "WebSocket connection already exists or is connecting" (disconnect w))
  ∧ (∀ es w i s,
       run initial es = Some w →
       ws (service w) = Some i → sockets w !! i = Some s → readyState s = OPEN →
       connect (disconnect w) = opened env (disconnect w)
       ∧ sockets (connect (disconnect w))
         = <[i := set_readyState CLOSING s]> (sockets w)
             ++ [{| url := ws_url env; readyState := CONNECTING |}]).
Proof.
  split.
  - intros w Hf. apply connect_guarded. right. right.
    unfold disconnect. by destruct (ws (service w)).
  - intros es w i s Hrun Hws Hi Hs.
    assert (isConnecting (service w) = false) as Hf.
    { destruct (isConnecting (service w)) eqn:Hf; [|done].
      destruct (flag_sound_reachable es w Hrun Hf) as (j & s' & Hj & Hs' & Hr).
      rewrite Hws in Hj. injection Hj as <-. rewrite Hi in Hs'. injection Hs' as <-.
      rewrite Hs in Hr. by destruct Hr. }
    assert (ws_readyState (disconnect w) = Some CLOSING) as Hd.
    { rewrite ws_readyState_disconnect, Hws, Hi. cbn. unfold close. by rewrite Hs. }
    rewrite connect_unguarded.
    + split; [done|]. unfold opened, disconnect. rewrite Hws. cbn. f_equal.
      apply list_eq. intros j. destruct (decide (i = j)) as [<-|Hne].
      * rewrite list_lookup_alter_eq, Hi, list_lookup_insert_eq
          by (by apply lookup_lt_Some in Hi).
        cbn. unfold close. by rewrite Hs.
      * by rewrite list_lookup_alter_ne, list_lookup_insert_ne.
    + by rewrite Hd.
    + by rewrite Hd.
    + unfold disconnect. by rewrite Hws.
Qed.

(** ** Reconnection *)

(** The page after the close event of socket [i], 5 s or more, and the
    firing of the timeout that the close event scheduled. *)
Lemma reconnect_round w i s d :
  ws (service w) = Some i → sockets w !! i = Some s → readyState s ≠ CLOSED →
  (5000 ≤ d)%N →
  run w [SockClose i; Elapse d; Fire (List.length (timeouts w))]
  = Some (opened env
            (advance d
               (with_service (set_isConnecting false)
                  (log "WebSocket connection closed"
                     (with_sockets (alter (set_readyState CLOSED) i) w))))).
Proof.
  intros Hws Hi Hs Hd. cbn [ConnectionManager.run].
  rewrite (step_close env throws w i s Hi Hs).
  change (step ?w (Elapse d)) with (Some (advance d w)).
  cbn [ConnectionManager.step]. unfold onclose, setTimeout.
  cbn [advance with_timeouts with_service log timeouts clock service sockets
       console deliveries].
  rewrite list_lookup_middle by done. cbn [due job run_callback].
  rewrite (proj2 (N.leb_le _ _)) by lia.
  rewrite connect_unguarded; [f_equal|..].
  - unfold opened. cbn. by rewrite delete_middle, app_nil_r.
  - unfold ws_readyState. cbn. by rewrite Hws, list_lookup_alter_eq, Hi.
  - unfold ws_readyState. cbn. by rewrite Hws, list_lookup_alter_eq, Hi.
  - done.
Qed.

(** X5. When the socket that the service holds closes, in whatever state
    it was and whatever else the page holds, the timeout scheduled by the
    close event, fired 5 s later or more, does create a new socket: it is
    connecting, the service holds it, the connecting flag is up, and the
    registered handlers and the other timeouts are as before. Before the
    5 s have passed the timeout cannot fire. *)
Theorem reconnection_creates_new_socket w i s d :
  ws (service w) = Some i → sockets w !! i = Some s → readyState s ≠ CLOSED →
  let round := [SockClose i; Elapse d; Fire (List.length (timeouts w))] in
  ((5000 ≤ d)%N →
     ∃ w', run w round = Some w'
       ∧ sockets w' = <[i := set_readyState CLOSED s]> (sockets w)
                        ++ [{| url := ws_url env; readyState := CONNECTING |}]
       ∧ ws (service w') = Some (List.length (sockets w))
       ∧ isConnecting (service w') = true
       ∧ messageHandlers (service w') = messageHandlers (service w)
       ∧ timeouts w' = timeouts w
       ∧ clock w' = (clock w + d)%N)
  ∧ ((d < 5000)%N → run w round = None).
Proof.
  intros Hws Hi Hs round. split.
  - intros Hd. subst round. rewrite (reconnect_round w i s d Hws Hi Hs Hd).
    eexists. split; [done|]. cbn. rewrite length_alter. split_and!; try done.
    f_equal. apply list_eq. intros j. destruct (decide (i = j)) as [<-|Hne].
    + by rewrite list_lookup_alter_eq, Hi, list_lookup_insert_eq
        by (by apply lookup_lt_Some in Hi).
    + by rewrite list_lookup_alter_ne, list_lookup_insert_ne.
  - intros Hd. subst round. cbn [ConnectionManager.run].
    rewrite (step_close env throws w i s Hi Hs).
    change (step ?w (Elapse d)) with (Some (advance d w)).
    cbn [ConnectionManager.step]. unfold onclose, setTimeout.
    cbn [advance with_timeouts with_service log timeouts clock service sockets
         console deliveries].
    rewrite list_lookup_middle by done. cbn [due job run_callback].
    by rewrite (proj2 (N.leb_gt _ _)) by lia.
Qed.

Lemma retries_run n : ∀ w i s next k,
  ws (service w) = Some i → sockets w !! i = Some s → readyState s ≠ CLOSED →
  next = List.length (sockets w) → k = List.length (timeouts w) →
  ∃ w', run w (retries i next k n) = Some w'
    ∧ List.length (sockets w') = List.length (sockets w) + n
    ∧ clock w' = (clock w + 5000 * N.of_nat n)%N
    ∧ timeouts w' = timeouts w
    ∧ messageHandlers (service w') = messageHandlers (service w)
    ∧ (0 < n → ws (service w') = Some (List.length (sockets w) + n - 1)
               ∧ ws_readyState w' = Some CONNECTING
               ∧ isConnecting (service w') = true).
Proof.
  induction n as [|n IH]; intros w i s next k Hws Hi Hs -> ->.
  - exists w. cbn. split_and!; try done; lia.
  - cbn [retries]. rewrite run_app.
    rewrite (reconnect_round w i s 5000 Hws Hi Hs) by lia.
    set (w1 := opened env _).
    assert (List.length (sockets w1) = S (List.length (sockets w))) as Hlen.
    { subst w1. cbn. rewrite length_app, length_alter. cbn. lia. }
    assert (ws (service w1) = Some (List.length (sockets w))) as Hws1.
    { subst w1. cbn. by rewrite length_alter. }
    assert (sockets w1 !! List.length (sockets w)
            = Some {| url := ws_url env; readyState := CONNECTING |}) as Hi1.
    { subst w1. cbn. rewrite <- (length_alter (set_readyState CLOSED) (sockets w) i).
      by rewrite list_lookup_middle. }
    destruct (IH w1 (List.length (sockets w)) _ (S (List.length (sockets w)))
                (List.length (timeouts w)) Hws1 Hi1)
      as (w' & Hrun & Hsock & Hclock & Htime & Hhs & Hlast); [done|done|done|].
    exists w'. split; [exact Hrun|]. rewrite Hsock, Hclock, Htime, Hhs, Hlen.
    split_and!; [lia|subst w1; cbn; lia|done|done|].
    intros _. destruct n as [|n].
    + cbn in Hrun. injection Hrun as <-. split_and!.
      * rewrite Hws1. f_equal. lia.
      * subst w1. apply ws_readyState_opened.
      * done.
    + destruct Hlast as (Hw & Hr & Hf); [lia|]. rewrite Hw, Hlen.
      split_and!; [f_equal; lia|done|done].
Qed.

(** X6. Reconnection has no limit and no back-off: if the connection is
    lost [n] times in a row, each loss is answered 5 s later by a new
    socket, so that after [n] losses [n] new sockets have been created and
    5000 n ms have passed, for every [n]; the last socket is connecting and
    the registered handlers are as before. *)
Theorem retries_are_unbounded n w i s :
  ws (service w) = Some i → sockets w !! i = Some s → readyState s ≠ CLOSED →
  ∃ w', run w (retries i (List.length (sockets w)) (List.length (timeouts w)) n) = Some w'
    ∧ List.length (sockets w') = List.length (sockets w) + n
    ∧ clock w' = (clock w + 5000 * N.of_nat n)%N
    ∧ timeouts w' = timeouts w
    ∧ messageHandlers (service w') = messageHandlers (service w)
    ∧ (0 < n → ws (service w') = Some (List.length (sockets w) + n - 1)
               ∧ ws_readyState w' = Some CONNECTING
               ∧ isConnecting (service w') = true).
Proof. intros Hws Hi Hs. by apply (retries_run n w i s). Qed.

Lemma step_open w i s :
  sockets w !! i = Some s → readyState s = CONNECTING →
  step w (SockOpen i) = Some (onopen (with_sockets (alter (set_readyState OPEN) i) w)).
Proof.
  intros Hi Hs. cbn [ConnectionManager.step]. rewrite Hi.
  by rewrite bool_decide_eq_true_2.
Qed.

(** X7. Registrations survive the loss of the connection: once the socket
    has closed, the timeout has fired and the new socket has opened, a
    message on the new socket is delivered to the handlers that were
    registered before the loss, in the same order (provided none of them
    throws on it). *)
Theorem registrations_survive_reconnection w i s m :
  ws (service w) = Some i → sockets w !! i = Some s → readyState s ≠ CLOSED →
  (∀ h, h ∈ messageHandlers (service w) → throws h m = false) →
  let fresh := List.length (sockets w) in
  ∃ w', run w [SockClose i; Elapse 5000; Fire (List.length (timeouts w));
               SockOpen fresh; SockMessage fresh m] = Some w'
    ∧ deliveries w' = deliveries w ++ ((λ h, (h, m)) <$> messageHandlers (service w))
    ∧ messageHandlers (service w') = messageHandlers (service w)
    ∧ ws_readyState w' = Some OPEN.
Proof.
  intros Hws Hi Hs Hq fresh.
  change [SockClose i; Elapse 5000; Fire (List.length (timeouts w));
          SockOpen fresh; SockMessage fresh m]
    with ([SockClose i; Elapse 5000; Fire (List.length (timeouts w))]
            ++ [SockOpen fresh; SockMessage fresh m]).
  rewrite run_app, (reconnect_round w i s 5000 Hws Hi Hs) by lia.
  set (w1 := opened env _).
  assert (sockets w1 !! fresh
          = Some {| url := ws_url env; readyState := CONNECTING |}) as Hi1.
  { subst w1 fresh. cbn.
    rewrite <- (length_alter (set_readyState CLOSED) (sockets w) i).
    by rewrite list_lookup_middle. }
  cbn [ConnectionManager.run]. rewrite (step_open w1 fresh _ Hi1 eq_refl).
  set (w2 := onopen _).
  assert (sockets w2 !! fresh
          = Some {| url := ws_url env; readyState := OPEN |}) as Hi2.
  { change (sockets w2) with (alter (set_readyState OPEN) fresh (sockets w1)).
    by rewrite list_lookup_alter_eq, Hi1. }
  rewrite (step_message env throws w2 fresh _ m Hi2 eq_refl).
  unfold ConnectionManager.onmessage.
  assert (messageHandlers (service w2) = messageHandlers (service w)) as Hhs
    by done.
  rewrite Hhs, (forEach_returns throws _ _ Hq).
  eexists. split; [done|]. cbn [fst with_deliveries deliveries service].
  split_and!; [done|done|].
  change (ws_readyState _) with (readyState <$> sockets w2 !! List.length
            (alter (set_readyState CLOSED) i (sockets w))).
  rewrite length_alter. fold fresh. by rewrite Hi2.
Qed.

(** ** Who is invoked, and when *)

(** A dispatch only invokes registered handlers, with the payload of the
    message. *)
Lemma forEach_invokes hs data h m :
  (h, m) ∈ fst (forEach throws hs data) → h ∈ hs ∧ m = data.
Proof.
  induction hs as [|g hs IH]; cbn [forEach fst].
  - by intros ?%elem_of_nil.
  - destruct (throws g data).
    + intros [= -> ->]%list_elem_of_singleton. split; [apply list_elem_of_here|done].
    + destruct (forEach throws hs data) as [ds c]. cbn [fst] in *.
      intros [[= -> ->]|Hin]%elem_of_cons.
      * split; [apply list_elem_of_here|done].
      * destruct (IH Hin) as [Hh ->]. split; [by apply list_elem_of_further|done].
Qed.

Lemma step_deliveries w e w' h m :
  step w e = Some w' → (h, m) ∈ deliveries w' →
  (h, m) ∈ deliveries w
  ∨ (h ∈ messageHandlers (service w) ∧ ∃ i, e = SockMessage i m).
Proof.
  step_cases e w; try (by left).
  - destruct (connect_dichotomy w) as [->|(_ & _ & _ & ->)]; by left.
  - unfold disconnect. destruct (ws (service w)); by left.
  - unfold onmessage.
    destruct (forEach throws (messageHandlers (service w)) data) as [ds c] eqn:Hf.
    cbn [fst with_deliveries deliveries].
    intros [Hin|Hin]%elem_of_app; [by left|]. right.
    destruct (forEach_invokes (messageHandlers (service w)) data h m) as [Hh ->].
    { by rewrite Hf. }
    split; [done|by exists i].
  - destruct (connect_dichotomy (with_timeouts (delete k) w))
      as [->|(_ & _ & _ & ->)]; by left.
Qed.

Lemma step_handlers w e w' h :
  step w e = Some w' → h ∈ messageHandlers (service w') →
  h ∈ messageHandlers (service w) ∨ e = OnMessage h.
Proof.
  step_cases e w; try (by left).
  - destruct (connect_dichotomy w) as [->|(_ & _ & _ & ->)]; by left.
  - unfold disconnect. destruct (ws (service w)); by left.
  - cbn. intros [Hin| ->%list_elem_of_singleton]%elem_of_app; [by left|by right].
  - cbn. intros [_ Hin]%list_elem_of_filter. by left.
  - unfold onmessage. destruct (forEach _ _ _). by left.
  - destruct (connect_dichotomy (with_timeouts (delete k) w))
      as [->|(_ & _ & _ & ->)]; by left.
Qed.

Lemma run_deliveries es : ∀ w w' h m,
  run w es = Some w' → (h, m) ∈ deliveries w' →
  (h, m) ∈ deliveries w
  ∨ ((h ∈ messageHandlers (service w) ∨ OnMessage h ∈ es)
     ∧ ∃ i, SockMessage i m ∈ es).
Proof.
  induction es as [|e es IH]; intros w w' h m; cbn [ConnectionManager.run].
  - intros [= <-] Hin. by left.
  - destruct (step w e) as [w1|] eqn:He; [|done]. intros Hrun Hin.
    destruct (IH w1 w' h m Hrun Hin) as [Hd|[Hreg [i Hmsg]]].
    + destruct (step_deliveries w e w1 h m He Hd) as [?|[Hh [i ->]]]; [by left|].
      right. split; [by left|]. exists i. apply list_elem_of_here.
    + right. split; [|exists i; by apply list_elem_of_further].
      destruct Hreg as [Hh|Hon]; [|right; by apply list_elem_of_further].
      destruct (step_handlers w e w1 h He Hh) as [?| ->]; [by left|].
      right. apply list_elem_of_here.
Qed.

(** X8. Handlers are invoked for messages only, and only when registered:
    whenever a run from the initial page has invoked handler [h] with
    payload [m], the run contains the registration of [h] and a message
    event carrying [m]. In particular no connection event, timeout or call
    of the service invokes a handler, and a handler that was never
    registered is never invoked. *)
Theorem deliveries_come_from_messages es w h m :
  run initial es = Some w → (h, m) ∈ deliveries w →
  OnMessage h ∈ es ∧ ∃ i, SockMessage i m ∈ es.
Proof.
  intros Hrun Hin.
  destruct (run_deliveries es initial w h m Hrun Hin) as [Hd|[[Hh|Hon] Hmsg]].
  - by apply elem_of_nil in Hd.
  - by apply elem_of_nil in Hh.
  - done.
Qed.

Lemma received_none g ds :
  (∀ h m, (h, m) ∈ ds → h ≠ g) → received g ds = [].
Proof.
  intros Hds. unfold received.
  induction ds as [|[h m] ds IH]; [done|].
  rewrite filter_cons_False.
  - apply IH. intros h' m' Hin. apply (Hds h' m'). by apply list_elem_of_further.
  - cbn. apply (Hds h m). apply list_elem_of_here.
Qed.

Lemma step_unregistered w e w' g :
  g ∉ messageHandlers (service w) → e ≠ OnMessage g → step w e = Some w' →
  (g ∉ messageHandlers (service w'))
  ∧ received g (deliveries w') = received g (deliveries w).
Proof.
  intros Hg Hne He. split.
  - intros Hin. by destruct (step_handlers w e w' g He Hin).
  - revert He. step_cases e w; try done.
    + by destruct (connect_dichotomy w) as [->|(_ & _ & _ & ->)].
    + unfold disconnect. by destruct (ws (service w)).
    + unfold onmessage.
      destruct (forEach throws (messageHandlers (service w)) data) as [ds c] eqn:Hf.
      cbn [fst with_deliveries deliveries]. rewrite received_app.
      rewrite (received_none g ds); [by rewrite app_nil_r|].
      intros h m Hin ->.
      destruct (forEach_invokes (messageHandlers (service w)) data g m) as [Hh _];
        [by rewrite Hf|done].
    + by destruct (connect_dichotomy (with_timeouts (delete k) w))
        as [->|(_ & _ & _ & ->)].
Qed.

Lemma run_unregistered es : ∀ w w' g,
  g ∉ messageHandlers (service w) → OnMessage g ∉ es → run w es = Some w' →
  (g ∉ messageHandlers (service w'))
  ∧ received g (deliveries w') = received g (deliveries w).
Proof.
  induction es as [|e es IH]; intros w w' g Hg Hes; cbn [ConnectionManager.run].
  - by intros [= <-].
  - apply not_elem_of_cons in Hes as [Hne Hes].
    destruct (step w e) as [w1|] eqn:He; [|done]. intros Hrun.
    destruct (step_unregistered w e w1 g Hg (λ H, Hne (eq_sym H)) He) as [Hg1 Hr1].
    destruct (IH w1 w' g Hg1 Hes Hrun) as [Hg' Hr']. split; [done|congruence].
Qed.

(** X9. A disposer called between two events of the page, that is, not
    from inside a handler while a dispatch is in progress, is final: from
    then on [g] is not invoked by any later event, whatever happens on the
    page (messages, throwing handlers, reconnections, other registrations),
    for as long as [g] is not registered anew. *)
Theorem disposed_handler_is_never_invoked g w es w' :
  run w (Dispose (Disposer g) :: es) = Some w' →
  OnMessage g ∉ es →
  received g (deliveries w') = received g (deliveries w)
  ∧ (g ∉ messageHandlers (service w')).
Proof.
  cbn [ConnectionManager.run ConnectionManager.step]. intros Hrun Hes.
  destruct (run_unregistered es (call_disposer (Disposer g) w) w' g) as [Hg Hr];
    [|done|done|by split].
  cbn. intros [Hne _]%list_elem_of_filter. by apply Hne.
Qed.

(** ** What a run never undoes *)

Lemma alter_advance (f : WebSocket → WebSocket) (l : list WebSocket) (j i : nat) s :
  (∀ x, l !! j = Some x →
        url (f x) = url x ∧ rank (readyState x) ≤ rank (readyState (f x))) →
  l !! i = Some s →
  ∃ s', alter f j l !! i = Some s' ∧ url s' = url s
        ∧ rank (readyState s) ≤ rank (readyState s').
Proof.
  intros Hf Hs. destruct (decide (j = i)) as [->|Hne].
  - rewrite list_lookup_alter_eq, Hs. exists (f s).
    destruct (Hf s Hs). by split_and!.
  - rewrite list_lookup_alter_ne by done. exists s. by split_and!.
Qed.

Lemma connect_keeps_sockets v i s :
  sockets v !! i = Some s → sockets (connect v) !! i = Some s.
Proof.
  intros Hs. destruct (connect_dichotomy v) as [->|(_ & _ & _ & ->)]; [done|].
  by apply lookup_app_l_Some.
Qed.

Lemma step_sockets_advance w e w' :
  step w e = Some w' →
  ∀ i s, sockets w !! i = Some s →
    ∃ s', sockets w' !! i = Some s' ∧ url s' = url s
          ∧ rank (readyState s) ≤ rank (readyState s').
Proof.
  step_cases e w; intros j x Hx; try (exists x; by split_and!).
  - exists x. split_and!; [by apply connect_keeps_sockets|done|done].
  - unfold disconnect. destruct (ws (service w)) as [n|]; [|exists x; by split_and!].
    apply alter_advance; [|done]. intros [u r] _. unfold close.
    destruct r; cbn; split; done || lia.
  - apply alter_advance; [|done]. intros y Hy. assert (y = s) as -> by congruence.
    split; [done|]. destruct s as [u r]. cbn in *. subst r. cbn. lia.
  - unfold onmessage. destruct (forEach _ _ _). exists x. by split_and!.
  - apply alter_advance; [|done]. intros [u r] _. cbn. split; [done|].
    destruct r; cbn; lia.
  - exists x. split_and!; [by apply connect_keeps_sockets|done|done].
Qed.

(** X10. A run never removes a socket, never changes its URL and never
    moves it backwards: each socket only advances from connecting to open,
    closing and closed. In particular a closed socket stays closed for
    ever, so that every reconnection is made with a new socket. *)
Theorem sockets_only_advance es : ∀ w w' i s,
  run w es = Some w' → sockets w !! i = Some s →
  ∃ s', sockets w' !! i = Some s' ∧ url s' = url s
        ∧ rank (readyState s) ≤ rank (readyState s')
        ∧ (readyState s = CLOSED → readyState s' = CLOSED)
        ∧ List.length (sockets w) ≤ List.length (sockets w').
Proof.
  assert (∀ w w' i s, run w es = Some w' → sockets w !! i = Some s →
            ∃ s', sockets w' !! i = Some s' ∧ url s' = url s
                  ∧ rank (readyState s) ≤ rank (readyState s')) as Hrank.
  { induction es as [|e es IH]; intros w w' i s; cbn [ConnectionManager.run].
    - intros [= <-] Hs. exists s. by split_and!.
    - destruct (step w e) as [w1|] eqn:He; [|done]. intros Hrun Hs.
      destruct (step_sockets_advance w e w1 He i s Hs) as (s1 & Hs1 & Hu1 & Hr1).
      destruct (IH w1 w' i s1 Hrun Hs1) as (s' & Hs' & Hu' & Hr').
      exists s'. split_and!; [done|congruence|lia]. }
  intros w w' i s Hrun Hs.
  destruct (Hrank w w' i s Hrun Hs) as (s' & Hs' & Hu & Hr).
  exists s'. split_and!; try done.
  - intros Hc. rewrite Hc in Hr. destruct (readyState s'); cbn in Hr; done || lia.
  - destruct (decide (List.length (sockets w) ≤ List.length (sockets w')));
      [done|exfalso].
    assert (is_Some (sockets w !! List.length (sockets w'))) as [x Hx]
      by (apply lookup_lt_is_Some; lia).
    destruct (Hrank w w' _ x Hrun Hx) as (x' & Hx' & _).
    apply lookup_lt_Some in Hx'. lia.
Qed.

(** ** Disconnecting *)





(** ** The registry and the feed component *)

Lemma step_registry_frame w e w' :
  registry_event e = false → step w e = Some w' →
  messageHandlers (service w') = messageHandlers (service w).
Proof.
  intros Hr. step_cases e w; try done.
  - by destruct (connect_dichotomy w) as [->|(_ & _ & _ & ->)].
  - unfold disconnect. by destruct (ws (service w)).
  - unfold onmessage. by destruct (forEach _ _ _).
  - by destruct (connect_dichotomy (with_timeouts (delete k) w))
      as [->|(_ & _ & _ & ->)].
Qed.

Lemma run_registry_frame es : ∀ w w',
  run w es = Some w' →
  (∀ e, e ∈ es → registry_event e = false) →
  messageHandlers (service w') = messageHandlers (service w).
Proof.
  induction es as [|e es IH]; intros w w'; cbn [ConnectionManager.run].
  - by intros [= <-].
  - destruct (step w e) as [w1|] eqn:He; [|done]. intros Hrun Hes.
    rewrite (IH w1 w' Hrun) by (intros e' He'; apply Hes; by apply list_elem_of_further).
    apply (step_registry_frame w e w1); [|done]. apply Hes, list_elem_of_here.
Qed.

(** X12. Only [onMessage] and the disposers change the list of registered
    handlers: a run that contains no such call, whatever its connections,
    disconnections, transport events, throwing handlers and timeouts,
    ends with the handlers it started with, in the same order. *)
Theorem only_registry_calls_change_handlers es w w' :
  run w es = Some w' →
  (∀ e, e ∈ es → registry_event e = false) →
  messageHandlers (service w') = messageHandlers (service w).
Proof. apply run_registry_frame. Qed.




End Runs.

(** * The feed and the function list components *)

Section FeedView.

Import FunctionFeed.

Lemma receive_all_snoc arrivals a c :
  receive_all (arrivals ++ [a]) c = receive a.1.1 a.1.2 a.2 (receive_all arrivals c).
Proof. unfold receive_all. by rewrite foldl_app. Qed.

(** X14. The feed keeps every payload it is handed and shows them newest
    first: after any sequence of arrivals the texts on display are the
    payloads of the arrivals in reverse order, followed by what was on
    display before; nothing is dropped, merged or reordered, and the
    loading state and the disposer are untouched. *)
Theorem feed_shows_newest_first arrivals c :
  text <$> displayed (receive_all arrivals c)
  = reverse (snd <$> arrivals) ++ (text <$> displayed c)
  ∧ List.length (messages (receive_all arrivals c))
    = List.length (messages c) + List.length arrivals
  ∧ loading (receive_all arrivals c) = loading c
  ∧ removeMessageHandler (receive_all arrivals c) = removeMessageHandler c.
Proof.
  induction arrivals as [|a arrivals IH] using rev_ind.
  - cbn. split_and!; done || lia.
  - destruct IH as (IH1 & IH2 & IH3 & IH4).
    rewrite receive_all_snoc. unfold displayed in *. cbn [receive messages loading
      removeMessageHandler].
    rewrite reverse_snoc, fmap_cons, IH1, fmap_app.
    change (snd <$> [a]) with [a.2].
    rewrite reverse_snoc, !length_app, IH2.
    cbn. split_and!; done || lia.
Qed.

End FeedView.

Section ListView.

Import FunctionList.

Lemma chars_app a b :
  list_ascii_of_string (a +:+ b) = list_ascii_of_string a ++ list_ascii_of_string b.
Proof. induction a as [|c a IH]; cbn; [done|]. by rewrite IH. Qed.

Lemma chars_inj a b : list_ascii_of_string a = list_ascii_of_string b → a = b.
Proof.
  intros H. apply (f_equal string_of_list_ascii) in H.
  by rewrite !string_of_list_ascii_of_string in H.
Qed.

(** The last character of a key is the last character of the type. *)
Lemma key_last_char a t :
  t ≠ "" →
  head (reverse (list_ascii_of_string (a +:+ t)))
  = head (reverse (list_ascii_of_string t)).
Proof.
  intros Ht. rewrite chars_app, reverse_app.
  destruct t as [|c t]; [done|]. cbn [list_ascii_of_string].
  rewrite reverse_cons. by destruct (reverse (list_ascii_of_string t)).
Qed.

(** X15. For the three trigger types that the platform has, the key of a
    card, the name followed by the type, determines both: two cards with
    the same key have the same name and the same type. With other types
    two different functions can get the same key. *)
Theorem card_key_determines_card :
  (∀ f g,
     known_type (type (trigger f)) → known_type (type (trigger g)) →
     card_key f = card_key g →
     name f = name g ∧ type (trigger f) = type (trigger g))
  ∧ (∃ f g, card_key f = card_key g ∧ name f ≠ name g).
Proof.
  split.
  - intros [nf cf [tf]] [ng cg [tg]]. unfold card_key. cbn.
    intros Hf Hg Hkey.
    assert (tf = tg) as <-.
    { pose proof (key_last_char nf tf) as Hlf. pose proof (key_last_char ng tg) as Hlg.
      rewrite Hkey in Hlf.
      destruct Hf as [-> | [-> | ->]], Hg as [-> | [-> | ->]]; try done;
        specialize (Hlf ltac:(done)); specialize (Hlg ltac:(done));
        rewrite Hlg in Hlf; vm_compute in Hlf; discriminate Hlf. }
    split; [|done].
    apply chars_inj. apply (f_equal list_ascii_of_string) in Hkey.
    rewrite !chars_app in Hkey. by apply app_inv_tail in Hkey.
  - exists {| name := "a"; code := ""; trigger := {| type := "bc" |} |},
           {| name := "ab"; code := ""; trigger := {| type := "c" |} |}.
    by split.
Qed.

Lemma lookup_Object_assign target source i :
  Object_assign target source !! i
  = if decide (i < List.length source) then source !! i else target !! i.
Proof.
  unfold Object_assign. destruct (decide (i < List.length source)) as [Hlt|Hge].
  - by rewrite lookup_app_l.
  - rewrite lookup_app_r, lookup_drop by lia. f_equal. lia.
Qed.

(** X16. [loadFunctions] always ends with the spinner off and never
    touches the modal. When the request fails, or its body is [null], the
    list is left as it was and one error toast is shown. When the body has
    no [functions] nothing changes. Otherwise no toast is shown and the
    reply overwrites the list index by index: the list is exactly the
    reply when it was not longer than the reply (as on the first load), and
    else it keeps its old entries beyond the length of the reply. Loading
    the same reply twice gives the same list as loading it once. *)
Theorem loadFunctions_outcomes o c :
  let c' := loadFunctions o c in
  loading c' = false
  ∧ showCodeModal c' = showCodeModal c
  ∧ selectedFunctionCode c' = selectedFunctionCode c
  ∧ selectedFunctionName c' = selectedFunctionName c
  ∧ match o with
    | Rejected | Fulfilled NoBody =>
        functions c' = functions c
        ∧ toasts c' = toasts c ++ ["Failed to load functions. Please try again."]
    | Fulfilled (Body None) =>
        functions c' = functions c ∧ toasts c' = toasts c
    | Fulfilled (Body (Some fs)) =>
        toasts c' = toasts c
        ∧ (∀ i, functions c' !! i
                = if decide (i < List.length fs) then fs !! i else functions c !! i)
        ∧ List.length (functions c') = List.length fs `max` List.length (functions c)
        ∧ (List.length (functions c) ≤ List.length fs → functions c' = fs)
        ∧ functions (loadFunctions o c') = functions c'
    end.
Proof.
  cbn zeta. split_and!; try by destruct o as [|[|[fs|]]].
  destruct o as [|[|[fs|]]]; try done.
  cbn [loadFunctions loadFunctions_settle loadFunctions_begin set_loading
       set_functions functions toasts].
  split_and!.
  - done.
  - apply lookup_Object_assign.
  - unfold Object_assign. rewrite length_app, length_drop. lia.
  - intros Hle. unfold Object_assign. by rewrite drop_ge, app_nil_r.
  - unfold Object_assign. f_equal. rewrite drop_app_length. done.
Qed.

End ListView.

(** * Further properties of the catalog formatter *)

Section Badges.

Lemma inherited_lookup k :
  Object_prototype !! k = None ↔ k ∉ inherited_names.
Proof.
  unfold Object_prototype. rewrite <- not_elem_of_list_to_map. done.
Qed.

Lemma inherited_values k v : Object_prototype !! k = Some v → ∃ n, v = Builtin n.
Proof.
  unfold Object_prototype. intros Hin%elem_of_list_to_map_2.
  repeat (apply elem_of_cons in Hin as [[= -> ->]|Hin]; [by eexists|]).
  by apply elem_of_nil in Hin.
Qed.

(** X17. [getBadgeClass] answers the default class exactly for the tags
    that are neither one of its three keys nor the name of a property that
    object literals inherit; for every tag outside the inherited names the
    answer is one of the four class strings. *)
Theorem badge_class_default_exactly triggerType :
  (getBadgeClass triggerType = Str "bg-secondary"
   ↔ triggerType ≠ "timer" ∧ triggerType ≠ "http" ∧ triggerType ≠ "unity_table"
     ∧ triggerType ∉ inherited_names)
  ∧ (triggerType ∉ inherited_names → getBadgeClass triggerType ∈ badge_classes).
Proof.
  assert (triggerType = "timer" ∨ triggerType = "http" ∨ triggerType = "unity_table"
          ∨ (triggerType ≠ "timer" ∧ triggerType ≠ "http"
             ∧ triggerType ≠ "unity_table")) as Hcases.
  { destruct (decide (triggerType = "timer")); [by left|].
    destruct (decide (triggerType = "http")); [by right; left|].
    destruct (decide (triggerType = "unity_table")); [by right; right; left|].
    by right; right; right. }
  destruct Hcases as [-> | [-> | [-> | (H1 & H2 & H3)]]].
  - split; [split; [done|by intros (? & _)]|].
    intros _. apply list_elem_of_here.
  - split; [split; [done|by intros (_ & ? & _)]|].
    intros _. apply list_elem_of_further, list_elem_of_here.
  - split; [split; [done|by intros (_ & _ & ? & _)]|].
    intros _. do 2 apply list_elem_of_further. apply list_elem_of_here.
  - split.
    + split.
      * intros Hb. split_and!; [done|done|done|].
        apply inherited_lookup.
        destruct (Object_prototype !! triggerType) as [v|] eqn:Hv; [|done].
        destruct (inherited_values _ _ Hv) as [n ->].
        unfold getBadgeClass, get in Hb.
        rewrite !lookup_insert_ne, lookup_empty, Hv in Hb by done. done.
      * intros (_ & _ & _ & Hn%inherited_lookup).
        by apply badge_class_default.
    + intros Hn%inherited_lookup. rewrite badge_class_default by done.
      do 3 apply list_elem_of_further. apply list_elem_of_here.
Qed.

End Badges.

Section Schedules.

Lemma free_of_app sep a b :
  free_of sep (a +:+ b) = free_of sep a && free_of sep b.
Proof.
  induction a as [|c a IH]; cbn [free_of String.append]; [done|].
  rewrite IH. by destruct (Ascii.eqb c sep).
Qed.

(** The fields that [split] returns do not contain the separator. *)
Lemma split_fields_free sep s : ∀ f, f ∈ split sep s → free_of sep f = true.
Proof.
  induction s as [|c s IH]; cbn [split].
  - by intros f ->%list_elem_of_singleton.
  - destruct (Ascii.eqb c sep) eqn:Hc.
    + intros f [-> | Hf]%elem_of_cons; [done|by apply IH].
    + destruct (split sep s) as [|g gs].
      * intros f ->%list_elem_of_singleton. cbn. by rewrite Hc.
      * intros f [-> | Hf]%elem_of_cons.
        -- cbn [free_of]. rewrite Hc. cbn. apply IH, list_elem_of_here.
        -- by apply IH, list_elem_of_further.
Qed.

Lemma append_assoc a b c : (a +:+ b) +:+ c = a +:+ (b +:+ c).
Proof. induction a as [|x a IH]; cbn [String.append]; [done|]. by rewrite IH. Qed.

Lemma substring_free sep n : ∀ s, free_of sep s = true → free_of sep (substring n s) = true.
Proof.
  induction n as [|n IH]; intros [|c s]; cbn [substring free_of]; try done.
  intros [_ Hs]%andb_prop. by apply IH.
Qed.

Lemma uint_free d : free_of " " (NilEmpty.string_of_uint d) = true.
Proof. induction d; cbn [NilEmpty.string_of_uint free_of]; by rewrite ?IHd. Qed.

Lemma toString_free x : free_of " " (toString x) = true.
Proof.
  destruct x as [z| |]; [|done|done]. unfold toString, decimal.
  destruct (z <? 0)%Z; [|apply uint_free].
  rewrite free_of_app, uint_free. done.
Qed.

Lemma padStart_free n s : free_of " " s = true → free_of " " (padStart n "0" s) = true.
Proof.
  intros Hs. unfold padStart. rewrite free_of_app, Hs, andb_true_r.
  induction (n - String.length s) as [|k IH]; [done|]. cbn. exact IH.
Qed.

(** X18. Formatting is idempotent: the phrase that [formatCronSchedule]
    returns for any string is returned unchanged when it is formatted
    again, so that no phrase of the formatter is ever taken for a cron
    expression. *)
Theorem formatCronSchedule_idempotent s :
  formatCronSchedule (formatCronSchedule s) = formatCronSchedule s.
Proof.
  destruct (common_pattern s) as [phrase|] eqn:Hc.
  - assert (formatCronSchedule s = phrase) as ->
      by (unfold formatCronSchedule; by rewrite Hc).
    unfold common_pattern in Hc.
    repeat (destruct (String.eqb s _); [by injection Hc as <-|]). done.
  - destruct (decide (List.length (split " " s) = 5)) as [Hlen|Hlen].
    + destruct (split " " s) as [|minute [|hour [|dayOfMonth [|month [|dayOfWeek [|]]]]]]
        eqn:Hs; try done.
      assert (free_of " " minute = true) as Hfm
        by (apply (split_fields_free " " s); rewrite Hs; apply list_elem_of_here).
      rewrite (format_five_fields _ _ _ _ _ _ Hc Hs).
      destruct (startsWith minute "*/") eqn:Hi.
      * set (interval := substring 2 minute).
        assert (free_of " " interval = true) as Hfi by by apply substring_free.
        set (word := "minute" +:+ (if String.eqb interval "1" then "" else "s")).
        assert (free_of " " word = true) as Hfw
          by (subst word; by destruct (String.eqb interval "1")).
        change ("Every " +:+ interval +:+ " minute"
                  +:+ (if String.eqb interval "1" then "" else "s"))
          with ("Every" +:+ String " " (interval +:+ String " " word)).
        unfold formatCronSchedule at 1.
        change (common_pattern ("Every" +:+ String " " (interval +:+ String " " word)))
          with (@None string).
        by rewrite !split_field, split_free.
      * destruct (match_digits minute && match_digits hour) eqn:Hd;
          [|by rewrite (format_five_fields _ _ _ _ _ _ Hc Hs), Hi, Hd].
        set (time := toString (or_else (rem (parseInt hour) (Finite 12)) (Finite 12))
                       +:+ ":" +:+ padStart 2 "0" minute).
        assert (free_of " " time = true) as Hft.
        { subst time. rewrite !free_of_app, toString_free, padStart_free; done. }
        set (ampm := if geq (parseInt hour) (Finite 12) then "PM" else "AM").
        assert (free_of " " ampm = true) as Hfa
          by (subst ampm; by destruct (geq _ _)).
        assert ("Every day at "
                  +:+ toString (or_else (rem (parseInt hour) (Finite 12)) (Finite 12))
                  +:+ ":" +:+ padStart 2 "0" minute +:+ " " +:+ ampm
                = "Every" +:+ String " " ("day" +:+ String " " ("at" +:+ String " "
                    (time +:+ String " " ampm)))) as ->.
        { subst time. by rewrite !append_assoc. }
        unfold formatCronSchedule at 1.
        change (common_pattern ("Every" +:+ String " " ("day" +:+ String " "
                  ("at" +:+ String " " (time +:+ String " " ampm)))))
          with (@None string).
        by rewrite !split_field, split_free.
    + assert (formatCronSchedule s = s) as Hpass.
      { unfold formatCronSchedule. rewrite Hc.
        by destruct (Nat.eqb_spec (List.length (split " " s)) 5). }
      by rewrite !Hpass.
Qed.

Lemma to_double_large z :
  (2 ^ 53 ≤ z)%Z →
  to_double z = Infinity ∨ ∃ v, to_double z = Finite v ∧ (2 ^ 52 ≤ v)%Z.
Proof.
  intros Hz. unfold to_double. rewrite (proj2 (Z.ltb_ge _ _) Hz).
  set (e := (Z.log2 z - 52)%Z). set (q := Z.shiftr z e).
  match goal with
  | |- context [if ?c then (q + 1)%Z else q] =>
      set (q' := if c then (q + 1)%Z else q)
  end.
  destruct (2 ^ 1024 <=? Z.shiftl q' e)%Z; [by left|right].
  eexists. split; [done|].
  assert (53 ≤ Z.log2 z)%Z as Hlog.
  { change 53%Z with (Z.log2 (2 ^ 53)). by apply Z.log2_le_mono. }
  assert (0 < e)%Z as He by (subst e; lia).
  assert (2 ^ 52 ≤ q)%Z as Hq.
  { subst q. rewrite Z.shiftr_div_pow2 by lia.
    apply Z.div_le_lower_bound; [by apply Z.pow_pos_nonneg; lia|].
    rewrite <- Z.pow_add_r by lia. replace (e + 52)%Z with (Z.log2 z) by (subst e; lia).
    apply Z.log2_spec. lia. }
  assert (q ≤ q')%Z as Hq' by (subst q'; destruct (_ || _); lia).
  rewrite Z.shiftl_mul_pow2 by lia.
  assert (0 < 2 ^ e)%Z by (apply Z.pow_pos_nonneg; lia). nia.
Qed.

(** X19. The hour field is not range-checked, yet the numeric rule always
    puts a time of the 12-hour clock: for any numeric minute and hour
    fields, however large the hour, the phrase is "Every day at H:MM"
    followed by AM or PM, with H between 1 and 12, the minute padded with a
    zero to two digits, and AM exactly when the hour is below 12. *)
Theorem numeric_hour_always_on_the_clock expr minute hour dayOfMonth month dayOfWeek :
  common_pattern expr = None →
  split " " expr = [minute; hour; dayOfMonth; month; dayOfWeek] →
  match_digits minute = true →
  match_digits hour = true →
  ∃ H, (1 ≤ H ≤ 12)%Z
    ∧ formatCronSchedule expr
      = "Every day at " +:+ decimal (Z.to_N H) +:+ ":" +:+ two_digits minute
          +:+ " " +:+ period (decimal_value 0 hour).
Proof.
  intros Hc Hs Hm Hh.
  rewrite (format_five_fields _ _ _ _ _ _ Hc Hs).
  rewrite (digits_not_interval _ Hm), Hm, Hh. cbn [andb].
  rewrite (parseInt_digits _ Hh), padStart_two_digits.
  pose proof (decimal_value_nonneg hour 0 ltac:(done)) as Hv.
  set (v := decimal_value 0 hour) in *.
  assert (∀ u, (0 ≤ u)%Z → (1 ≤ hour12 u ≤ 12)%Z) as Hclock.
  { intros u Hu. unfold hour12. pose proof (Z.mod_pos_bound u 12 ltac:(lia)).
    destruct (Z.eqb_spec (u mod 12) 0); lia. }
  destruct (decide (v < 2 ^ 53)%Z) as [Hsmall|Hlarge].
  - rewrite (small_integers_representable v Hsmall).
    exists (hour12 v). split; [by apply Hclock|].
    by rewrite hour_rendering, period_rendering.
  - assert (period v = "PM") as ->
      by (unfold period; rewrite (proj2 (Z.ltb_ge _ _)); [done|lia]).
    destruct (to_double_large v) as [->|(u & -> & Hu)]; [lia|..].
    + by exists 12%Z.
    + exists (hour12 u). split; [apply Hclock; lia|].
      rewrite hour_rendering, period_rendering by lia.
      unfold period. rewrite (proj2 (Z.ltb_ge _ _)); [done|lia].
Qed.

End Schedules.

(** * The further properties on the example pages *)

Section Examples.

#[local] Abbreviation socket_url := "wss://functions.example/api/v1/ws".

Lemma sockets_share_the_page_url_witness :
  ∃ w s, run page well_behaved initial session = Some w
    ∧ sockets w !! 2 = Some s
    ∧ url s = socket_url.
Proof.
  destruct (run page well_behaved initial session) as [w|] eqn:Hrun;
    [|vm_compute in Hrun; discriminate Hrun].
  destruct (sockets w !! 2) as [s|] eqn:Hs.
  - exists w, s. split_and!; [done|done|].
    exact (proj1 (sockets_share_the_page_url page well_behaved session w Hrun 2 s Hs)).
  - vm_compute in Hrun. injection Hrun as <-. discriminate Hs.
Defined.

Lemma service_holds_newest_socket_witness :
  ∃ w, run page well_behaved initial session = Some w
    ∧ ws (service w) = Some (List.length (sockets w) - 1).
Proof.
  destruct (run page well_behaved initial session) as [w|] eqn:Hrun;
    [|vm_compute in Hrun; discriminate Hrun].
  exists w. split; [done|].
  apply (service_holds_newest_socket page well_behaved session w Hrun).
  vm_compute in Hrun. injection Hrun as <-. discriminate.
Defined.

Lemma connecting_flag_sound_witness :
  ∃ i s, ws (service (connect page initial)) = Some i
    ∧ sockets (connect page initial) !! i = Some s
    ∧ (readyState s = CONNECTING ∨ readyState s = CLOSING).
Proof.
  exact (connecting_flag_sound page well_behaved [Connect] (connect page initial)
           eq_refl eq_refl).
Defined.

Lemma connect_after_disconnect_witness :
  sockets (connect page (disconnect (connect page initial)))
  = sockets (disconnect (connect page initial))
  ∧ List.length (sockets (connect page (disconnect (connected [1])))) = 2.
Proof.
  destruct (connect_after_disconnect page well_behaved) as [Hrefused Hthrough].
  split.
  - by rewrite (Hrefused (connect page initial) eq_refl).
  - destruct (Hthrough [Connect; SockOpen 0] _ 0 _ eq_refl eq_refl eq_refl eq_refl)
      as [_ Hs].
    apply (f_equal List.length) in Hs. exact Hs.
Defined.

Lemma reconnection_creates_new_socket_witness :
  (∃ w', run page well_behaved (connected [1]) [SockClose 0; Elapse 5000; Fire 0] = Some w'
     ∧ ws (service w') = Some 1 ∧ isConnecting (service w') = true)
  ∧ run page well_behaved (connected [1]) [SockClose 0; Elapse 4999; Fire 0] = None.
Proof.
  split.
  - destruct (proj1 (reconnection_creates_new_socket page well_behaved (connected [1])
                       0 _ 5000 eq_refl eq_refl ltac:(discriminate)))
      as (w' & Hr & _ & Hws & Hf & _); [done|].
    exists w'. by split_and!.
  - apply (proj2 (reconnection_creates_new_socket page well_behaved (connected [1])
                    0 _ 4999 eq_refl eq_refl ltac:(discriminate))). done.
Defined.

Lemma retries_are_unbounded_witness :
  ∃ w', run page well_behaved (connected [1]) (retries 0 1 0 3) = Some w'
    ∧ List.length (sockets w') = 4 ∧ clock w' = 15000%N.
Proof.
  destruct (retries_are_unbounded page well_behaved 3 (connected [1]) 0 _
              eq_refl eq_refl ltac:(discriminate))
    as (w' & Hr & Hlen & Hclock & _).
  exists w'. by split_and!.
Defined.

Lemma registrations_survive_reconnection_witness :
  ∃ w', run page well_behaved (connected [1; 2])
          [SockClose 0; Elapse 5000; Fire 0; SockOpen 1; SockMessage 1 "back"] = Some w'
    ∧ deliveries w' = [(1, "back"); (2, "back")].
Proof.
  destruct (registrations_survive_reconnection page well_behaved (connected [1; 2])
              0 _ "back" eq_refl eq_refl ltac:(discriminate) (λ _ _, eq_refl))
    as (w' & Hr & Hd & _).
  exists w'. by split.
Defined.

Lemma deliveries_come_from_messages_witness :
  OnMessage 1 ∈ session ∧ ∃ i, SockMessage i "started" ∈ session.
Proof.
  destruct (run page well_behaved initial session) as [w|] eqn:Hrun;
    [|vm_compute in Hrun; discriminate Hrun].
  apply (deliveries_come_from_messages page well_behaved session w 1 "started" Hrun).
  vm_compute in Hrun. injection Hrun as <-. apply list_elem_of_here.
Defined.

Lemma disposed_handler_is_never_invoked_witness :
  ∃ w', run page second_throws (connected [1; 2; 3])
          [Dispose (Disposer 3); SockMessage 0 "a"; OnMessage 4; SockMessage 0 "b"] = Some w'
    ∧ received 3 (deliveries w') = [].
Proof.
  eexists. split; [reflexivity|].
  refine (proj1 (disposed_handler_is_never_invoked page second_throws 3
                   (connected [1; 2; 3])
                   [SockMessage 0 "a"; OnMessage 4; SockMessage 0 "b"] _ eq_refl _)).
  rewrite !not_elem_of_cons. split_and!; [discriminate..|apply not_elem_of_nil].
Defined.

Lemma sockets_only_advance_witness :
  ∃ w' s', run page well_behaved (connected [1]) [Disconnect; Connect; SockClose 0] = Some w'
    ∧ sockets w' !! 0 = Some s' ∧ url s' = socket_url
    ∧ 1 ≤ rank (readyState s').
Proof.
  destruct (sockets_only_advance page well_behaved [Disconnect; Connect; SockClose 0]
              (connected [1]) _ 0 _ eq_refl eq_refl)
    as (s' & Hs' & Hu & Hr & _).
  eexists _, s'. by split_and!.
Defined.


Lemma only_registry_calls_change_handlers_witness :
  ∃ w', run page second_throws (connected [1; 2; 3])
          [SockMessage 0 "a"; Disconnect; SockClose 0; Elapse 5000; Fire 0; SockOpen 1]
        = Some w'
    ∧ messageHandlers (service w') = [1; 2; 3].
Proof.
  eexists. split; [reflexivity|].
  refine (only_registry_calls_change_handlers page second_throws
            [SockMessage 0 "a"; Disconnect; SockClose 0; Elapse 5000; Fire 0; SockOpen 1]
            (connected [1; 2; 3]) _ eq_refl _).
  intros e He.
  repeat (apply elem_of_cons in He as [-> | He]; [reflexivity|]).
  by apply elem_of_nil in He.
Defined.


Lemma card_key_determines_card_witness :
  FunctionList.name {| FunctionList.name := "ingest"; FunctionList.code := "a";
                       FunctionList.trigger := {| FunctionList.type := "timer" |} |}
  = "ingest".
Proof.
  refine (proj1 (proj1 card_key_determines_card
                   {| FunctionList.name := "ingest"; FunctionList.code := "a";
                      FunctionList.trigger := {| FunctionList.type := "timer" |} |}
                   {| FunctionList.name := "ingest"; FunctionList.code := "b";
                      FunctionList.trigger := {| FunctionList.type := "timer" |} |}
                   _ _ eq_refl)); by left.
Defined.

Lemma loadFunctions_outcomes_witness :
  let f := {| FunctionList.name := "ingest"; FunctionList.code := "";
              FunctionList.trigger := {| FunctionList.type := "http" |} |} in
  FunctionList.functions
    (FunctionList.loadFunctions (FunctionList.Fulfilled (FunctionList.Body (Some [f; f])))
       FunctionList.setup)
  = [f; f].
Proof.
  intros f.
  pose proof (loadFunctions_outcomes
                (FunctionList.Fulfilled (FunctionList.Body (Some [f; f])))
                FunctionList.setup) as H.
  cbn zeta in H. destruct H as (_ & _ & _ & _ & _ & _ & _ & Hall & _).
  apply Hall. cbn. lia.
Defined.

Lemma badge_class_default_exactly_witness :
  getBadgeClass "webhook" = Str "bg-secondary".
Proof.
  apply (proj1 (badge_class_default_exactly "webhook")).
  split_and!; [discriminate..|].
  unfold inherited_names. rewrite !not_elem_of_cons.
  split_and!; [discriminate..|apply not_elem_of_nil].
Defined.

Lemma numeric_hour_always_on_the_clock_witness :
  ∃ H, (1 ≤ H ≤ 12)%Z
    ∧ formatCronSchedule "7 99999999999999999999 * * *"
      = "Every day at " +:+ decimal (Z.to_N H) +:+ ":07 PM".
Proof.
  exact (numeric_hour_always_on_the_clock "7 99999999999999999999 * * *"
           "7" "99999999999999999999" "*" "*" "*" eq_refl eq_refl eq_refl eq_refl).
Defined.

End Examples.
